(** * Read-only query firewall of the Postgres and SQL Server explorers

    A shallow embedding of [app.py] (Postgres backend) and [sqlserv.py]
    (SQL Server backend): the query validator, the row-cap normaliser and
    the tool functions (the catalog tools, [view_table], [execute_query]
    and the greeting), together with the properties of the validation ->
    normalisation -> execution pipeline and of the tools around it.

    Conventions of the embedding.
    - A Python [str] is a Rocq [string].  The text is taken to be ASCII:
      [upper] maps the letters a..z and leaves every other character as it
      is, and the white space removed by [strip] is the ASCII white space of
      Python ([\t \n \v \f \r], the separators 0x1c..0x1f and the blank).
    - A Python [set] of strings is iterated in an order the language does
      not fix.  The functions that iterate [DANGEROUS_SQL] therefore take
      the iteration order as an argument, and the theorems quantify over
      every order that is a permutation of the set's elements.
    - The database driver is outside the repository.  It is an oracle
      answering each call from the history of the calls made so far; the
      tool functions thread that history, which is also the trace the
      temporal properties are stated on. *)

From Stdlib Require Import String Ascii List Bool Arith ZArith Lia.
From Stdlib Require Import Permutation DecimalString.
Import ListNotations.

Local Open Scope list_scope.
Local Open Scope string_scope.

(** ** Python string operations *)

Module Py.

(** [c.isspace()] for an ASCII character. *)
Definition is_space (c : ascii) : bool :=
  let n := nat_of_ascii c in
  (((9 <=? n) && (n <=? 13)) || ((28 <=? n) && (n <=? 32)))%nat.

(** [c.upper()] for an ASCII character. *)
Definition upper_char (c : ascii) : ascii :=
  let n := nat_of_ascii c in
  if ((97 <=? n) && (n <=? 122))%nat then ascii_of_nat (n - 32) else c.

(** [s.upper()] *)
Fixpoint upper (s : string) : string :=
  match s with
  | EmptyString => EmptyString
  | String c r => String (upper_char c) (upper r)
  end.

(** [s.lstrip(chars)], the characters to drop given as a predicate. *)
Fixpoint lstrip_by (p : ascii -> bool) (s : string) : string :=
  match s with
  | EmptyString => EmptyString
  | String c r => if p c then lstrip_by p r else s
  end.

(** [s.rstrip(chars)], the characters to drop given as a predicate. *)
Fixpoint rstrip_by (p : ascii -> bool) (s : string) : string :=
  match s with
  | EmptyString => EmptyString
  | String c r =>
      match rstrip_by p r with
      | EmptyString => if p c then EmptyString else String c EmptyString
      | r' => String c r'
      end
  end.

(** [s.strip()] *)
Definition strip (s : string) : string :=
  rstrip_by is_space (lstrip_by is_space s).

(** [s.startswith(p)] *)
Fixpoint startswith (p s : string) : bool :=
  match p with
  | EmptyString => true
  | String a p' =>
      match s with
      | EmptyString => false
      | String b s' => Ascii.eqb a b && startswith p' s'
      end
  end.

(** [s.startswith((p1, ..., pn))] *)
Definition startswith_any (ps : list string) (s : string) : bool :=
  existsb (fun p => startswith p s) ps.

(** [w in s] *)
Fixpoint contains (w s : string) : bool :=
  startswith w s ||
  match s with
  | EmptyString => false
  | String _ r => contains w r
  end.

(** The text that follows the first [n] characters. *)
Fixpoint drop (n : nat) (s : string) : string :=
  match n, s with
  | O, _ => s
  | S n', String _ r => drop n' r
  | S _, EmptyString => EmptyString
  end.

(** [s.replace(old, new, 1)] for a non-empty [old]: the leftmost
    occurrence of [old] is replaced, a text without one is returned as it
    is. *)
Fixpoint replace_first (old new s : string) : string :=
  if startswith old s then new ++ drop (String.length old) s
  else
    match s with
    | EmptyString => EmptyString
    | String c r => String c (replace_first old new r)
    end.

(** [sep.join(xs)] *)
Fixpoint join (sep : string) (xs : list string) : string :=
  match xs with
  | [] => EmptyString
  | [x] => x
  | x :: rest => x ++ sep ++ join sep rest
  end.

(** [s.split(sep, 1)] for a one-character separator that occurs in [s]:
    the text before the first separator and the text after it;
    [None] when the separator does not occur. *)
Fixpoint split_once (sep : ascii) (s : string) : option (string * string) :=
  match s with
  | EmptyString => None
  | String c r =>
      if Ascii.eqb c sep then Some (EmptyString, r)
      else
        match split_once sep r with
        | Some (a, b) => Some (String c a, b)
        | None => None
        end
  end.

(** [str(n)] for a natural number. *)
Definition str_of_nat (n : nat) : string :=
  NilZero.string_of_uint (Nat.to_uint n).

(** [w] occurs in [s]: the relation the boolean test [contains] decides. *)
Definition occurs (w s : string) : Prop :=
  exists a b, s = a ++ w ++ b.

(** [s] begins with [p]. *)
Definition begins_with (p s : string) : Prop :=
  exists r, s = p ++ r.

End Py.

(** The newline character and the one-character strings used below. *)
Definition nl : string := String (ascii_of_nat 10) EmptyString.

(** ** Exceptions, driver values and the driver *)

(** A raised exception, as far as the handlers of the tool functions can
    tell exceptions apart: whether its class derives from [ValueError],
    and the text [str(e)].  Every exception of the model is an instance of
    [Exception]. *)
Record exn : Type := mk_exn {
  exn_is_ValueError : bool;
  exn_str : string
}.

Definition ValueError (msg : string) : exn := mk_exn true msg.
Definition TypeError (msg : string) : exn := mk_exn false msg.
Definition IndexError (msg : string) : exn := mk_exn false msg.

(** The outcome of an expression: a value, or a raised exception. *)
Definition result (A : Type) : Type := (exn + A)%type.

(** A scalar of a result row. *)
Inductive value : Type :=
| VNone
| VInt (z : Z)
| VStr (s : string).

Definition row : Type := list value.

(** A call on the driver or on the logger, in the order the calls are made. *)
Inductive event : Type :=
| EConnect
| ECursor
| EExecute (sql : string) (params : list string)
| EFetchall
| EFetchone
| EDescription
| ECloseCursor
| ECloseConn
| ELog (msg : string).

(** The driver and the database behind it.  Each call is answered from
    the history of the calls made before it: [None] or [inr] when the call
    returns, an exception when it raises.  [drv_columns] answers
    [[d[0] for d in cur.description]]; [drv_close_cursor] and
    [drv_close_conn] answer [cur.close()] and [conn.close()], which may
    raise like any other call; [py_repr_str] is [repr] on a [str]. *)
Record driver : Type := mk_driver {
  drv_connect : list event -> option exn;
  drv_cursor : list event -> option exn;
  drv_execute : list event -> string -> list string -> option exn;
  drv_fetchall : list event -> result (list row);
  drv_fetchone : list event -> result (option row);
  drv_columns : list event -> result (list string);
  drv_close_cursor : list event -> option exn;
  drv_close_conn : list event -> option exn;
  py_repr_str : string -> string
}.

(** The local state of one invocation: the calls made so far, and whether
    the names [conn] and [cur] are bound (what ["conn" in locals()] and
    ["cur" in locals()] test). *)
Record frame : Type := mk_frame {
  trace : list event;
  conn_bound : bool;
  cur_bound : bool
}.

(** The frame on entry.  The history starts empty: what the driver did
    in earlier invocations is part of the driver the run is given. *)
Definition frame0 : frame := mk_frame [] false false.

Definition emit (e : event) (f : frame) : frame :=
  mk_frame (trace f ++ [e]) (conn_bound f) (cur_bound f).

(** Statements of a [try] body: they read and extend the frame and either
    deliver a value or raise. *)
Definition M (A : Type) : Type := frame -> frame * result A.

Definition ret {A : Type} (a : A) : M A := fun f => (f, inr a).

Definition raise {A : Type} (e : exn) : M A := fun f => (f, inl e).

Definition bind {A B : Type} (m : M A) (k : A -> M B) : M B :=
  fun f =>
    match m f with
    | (f', inl e) => (f', inl e)
    | (f', inr a) => k a f'
    end.

Definition lift {A : Type} (r : result A) : M A := fun f => (f, r).

Notation "x <- m ;; k" := (bind m (fun x => k))
  (at level 61, m at next level, right associativity).
Notation "m ;;; k" := (bind m (fun _ => k))
  (at level 61, right associativity).

(** [conn = connect()] *)
Definition connect (d : driver) : M unit :=
  fun f =>
    match drv_connect d (trace f) with
    | Some e => (emit EConnect f, inl e)
    | None =>
        (mk_frame (trace f ++ [EConnect]) true (cur_bound f), inr tt)
    end.

(** [cur = conn.cursor()] *)
Definition cursor (d : driver) : M unit :=
  fun f =>
    match drv_cursor d (trace f) with
    | Some e => (emit ECursor f, inl e)
    | None =>
        (mk_frame (trace f ++ [ECursor]) (conn_bound f) true, inr tt)
    end.

(** [cur.execute(sql, params)] *)
Definition execute (d : driver) (sql : string) (params : list string)
  : M unit :=
  fun f =>
    match drv_execute d (trace f) sql params with
    | Some e => (emit (EExecute sql params) f, inl e)
    | None => (emit (EExecute sql params) f, inr tt)
    end.

(** [cur.fetchall()] *)
Definition fetchall (d : driver) : M (list row) :=
  fun f => (emit EFetchall f, drv_fetchall d (trace f)).

(** [cur.fetchone()] *)
Definition fetchone (d : driver) : M (option row) :=
  fun f => (emit EFetchone f, drv_fetchone d (trace f)).

(** [[d[0] for d in cur.description]] *)
Definition columns (d : driver) : M (list string) :=
  fun f => (emit EDescription f, drv_columns d (trace f)).

(** [logger.exception(msg)] *)
Definition log_exception (msg : string) (f : frame) : frame :=
  emit (ELog msg) f.

(** [conn.close()] when [conn] is bound, the last statement of the
    [finally] block: the frame after it and the exception it raised, if
    any. *)
Definition close_conn (d : driver) (f : frame) : frame * option exn :=
  if conn_bound f then (emit ECloseConn f, drv_close_conn d (trace f))
  else (f, None).

(** The [finally] block shared by the tool functions: the cursor is
    closed when [cur] is bound, then the connection when [conn] is.  The
    two calls are not guarded: when [cur.close()] raises, [conn.close()]
    is not reached. *)
Definition finally_close (d : driver) (f : frame) : frame * option exn :=
  if cur_bound f then
    match drv_close_cursor d (trace f) with
    | Some e => (emit ECloseCursor f, Some e)
    | None => close_conn d (emit ECloseCursor f)
    end
  else close_conn d f.

(** Leaving a tool function with [return text] pending: the [finally]
    block runs, and an exception it raises replaces the returned text and
    leaves the function. *)
Definition leave (d : driver) (f : frame) (text : string)
  : frame * result string :=
  let (f', raised) := finally_close d f in
  match raised with
  | Some e => (f', inl e)
  | None => (f', inr text)
  end.

(** ** Rendering a row: [str(dict(zip(cols, r)))] *)

(** [d[k] = v] on a dict kept in insertion order. *)
Fixpoint dict_set (k : string) (v : value) (d : list (string * value))
  : list (string * value) :=
  match d with
  | [] => [(k, v)]
  | (k', v') :: rest =>
      if String.eqb k' k then (k', v) :: rest
      else (k', v') :: dict_set k v rest
  end.

(** [dict(pairs)] *)
Definition dict_of (pairs : list (string * value)) : list (string * value) :=
  fold_left (fun d kv => dict_set (fst kv) (snd kv) d) pairs [].

(** [repr(v)] *)
Definition repr (d : driver) (v : value) : string :=
  match v with
  | VNone => "None"
  | VInt z => NilZero.string_of_int (Z.to_int z)
  | VStr s => py_repr_str d s
  end.

(** [str(dict(zip(cols, r)))] *)
Definition str_row (d : driver) (cols : list string) (r : row) : string :=
  "{" ++
  Py.join ", "
    (map (fun kv => py_repr_str d (fst kv) ++ ": " ++ repr d (snd kv))
         (dict_of (combine cols r)))
  ++ "}".

(** [not rows] *)
Definition is_empty {A : Type} (xs : list A) : bool :=
  match xs with [] => true | _ => false end.

(** ** Values in text *)

(** [str(v)], which is what an f-string writes for [{v}]. *)
Definition py_str (v : value) : string :=
  match v with
  | VNone => "None"
  | VInt z => NilZero.string_of_int (Z.to_int z)
  | VStr s => s
  end.

(** [bool(v)], the test of [if v:]. *)
Definition truthy (v : value) : bool :=
  match v with
  | VNone => false
  | VInt z => negb (z =? 0)%Z
  | VStr s => negb (String.eqb s "")
  end.

(** [type(v).__name__] *)
Definition type_name (v : value) : string :=
  match v with
  | VNone => "NoneType"
  | VInt _ => "int"
  | VStr _ => "str"
  end.

(** [v == s] for a text [s]: a value that is not a [str] differs. *)
Definition value_eq_str (v : value) (s : string) : bool :=
  match v with
  | VStr t => String.eqb t s
  | _ => false
  end.

(** [x or y] on texts: the empty text is false. *)
Definition py_or (x y : string) : string :=
  if String.eqb x "" then y else x.

(** [r[0]] on a row. *)
Definition row_item0 (r : row) : result value :=
  match r with
  | [] => inl (IndexError "tuple index out of range")
  | v :: _ => inr v
  end.

(** A comprehension whose element expression may raise: the elements are
    evaluated from left to right and the first exception ends it. *)
Fixpoint map_result {A B : Type} (f : A -> result B) (xs : list A)
  : result (list B) :=
  match xs with
  | [] => inr []
  | x :: rest =>
      match f x with
      | inl e => inl e
      | inr y =>
          match map_result f rest with
          | inl e => inl e
          | inr ys => inr (y :: ys)
          end
      end
  end.

(** The check [str.join] makes on its items, the first of which has
    index [i]: each must be a [str]. *)
Fixpoint join_items (i : nat) (vs : list value) : result (list string) :=
  match vs with
  | [] => inr []
  | VStr s :: rest =>
      match join_items (S i) rest with
      | inl e => inl e
      | inr ss => inr (s :: ss)
      end
  | v :: _ =>
      inl (TypeError ("sequence item " ++ Py.str_of_nat i ++
                      ": expected str instance, " ++ type_name v ++ " found"))
  end.

(** ["\n".join(r[0] for r in rows)]: [join] first draws every item from
    the generator, then checks and joins them. *)
Definition join_first_column (rows : list row) : result string :=
  match map_result row_item0 rows with
  | inl e => inl e
  | inr items =>
      match join_items 0 items with
      | inl e => inl e
      | inr ss => inr (Py.join nl ss)
      end
  end.

(** [c, t = r] *)
Definition unpack2 (r : row) : result (value * value) :=
  match r with
  | [c; t] => inr (c, t)
  | _ :: _ :: _ :: _ =>
      inl (ValueError "too many values to unpack (expected 2)")
  | _ =>
      inl (ValueError ("not enough values to unpack (expected 2, got " ++
                       Py.str_of_nat (List.length r) ++ ")"))
  end.

(** [logger.info(msg)]; the trace keeps the message. *)
Definition log_info (msg : string) (f : frame) : frame :=
  emit (ELog msg) f.

(** ** The validator, as both backends write it *)

(** The prefixes of [q.startswith((...))]. *)
Definition ALLOWED_PREFIXES : list string :=
  ["SELECT"; "WITH"; "SHOW"; "EXPLAIN"].

(** [validate_query], with the set it scans and the order in which the
    [for] loop meets the set's elements. *)
Definition validate (order : list string) (query : string) : result unit :=
  let q := Py.upper (Py.strip query) in
  if negb (Py.startswith_any ALLOWED_PREFIXES q) then
    inl (ValueError "Only read-only queries allowed")
  else
    match find (fun word => Py.contains word q) order with
    | Some word => inl (ValueError ("Blocked keyword: " ++ word))
    | None => inr tt
    end.

(** ** [app.py]: the Postgres backend *)

Module App.

(** The elements of the set [DANGEROUS_SQL], as the source lists them. *)
Definition DANGEROUS_SQL : list string :=
  ["DROP"; "DELETE"; "TRUNCATE"; "ALTER";
   "UPDATE"; "INSERT"; "CREATE";
   "GRANT"; "REVOKE"; "VACUUM"].

Definition MAX_ROWS : nat := 1000.

(** [validate_query]: returns [None] or raises [ValueError].  [order] is
    the order in which the loop meets the elements of [DANGEROUS_SQL]. *)
Definition validate_query (order : list string) (query : string)
  : result unit :=
  let q := Py.upper (Py.strip query) in
  if negb (Py.startswith_any ["SELECT"; "WITH"; "SHOW"; "EXPLAIN"] q) then
    inl (ValueError "Only read-only queries allowed")
  else
    match find (fun word => Py.contains word q) order with
    | Some word => inl (ValueError ("Blocked keyword: " ++ word))
    | None => inr tt
    end.

(** [enforce_limit] *)
Definition enforce_limit (query : string) : string :=
  if negb (Py.contains "LIMIT" (Py.upper query)) then
    Py.rstrip_by (fun c => Ascii.eqb c ";"%char) query
    ++ " LIMIT " ++ Py.str_of_nat MAX_ROWS
  else query.

(** The [try] body of [execute_query]. *)
Definition execute_query_body (d : driver) (order : list string)
  (db_name query : string) : M string :=
  lift (validate_query order query) ;;;
  let query := enforce_limit query in
  connect d ;;;
  cursor d ;;;
  execute d "SET statement_timeout = 3000" [] ;;;
  execute d query [] ;;;
  rows <- fetchall d ;;
  if is_empty rows then ret "No results"
  else
    cols <- columns d ;;
    ret (Py.join nl (map (str_row d cols) rows)).

(** [execute_query]: the body, the two handlers and the [finally] block.
    The result is the frame at exit and the returned text. *)
Definition execute_query (d : driver) (order : list string)
  (db_name query : string) : frame * result string :=
  let (f, r) := execute_query_body d order db_name query frame0 in
  match r with
  | inr text => leave d f text
  | inl e =>
      if exn_is_ValueError e then
        leave d f ("Blocked: " ++ exn_str e)
      else
        leave d (log_exception "execute_query failed" f)
         ("Internal error: " ++ exn_str e)
  end.

(** The statements of the catalog tools, triple-quoted literals. *)
Definition LIST_DATABASES_SQL : string :=
  nl ++ "            SELECT datname" ++
  nl ++ "            FROM pg_database" ++
  nl ++ "            WHERE datistemplate = false;" ++
  nl ++ "        ".

Definition LIST_TABLES_SQL : string :=
  nl ++ "            SELECT table_name" ++
  nl ++ "            FROM information_schema.tables" ++
  nl ++ "            WHERE table_schema = 'public'" ++
  nl ++ "            AND table_catalog = %s;" ++
  nl ++ "        ".

Definition TABLE_SCHEMA_SQL : string :=
  nl ++ "            SELECT column_name, data_type" ++
  nl ++ "            FROM information_schema.columns" ++
  nl ++ "            WHERE table_catalog = %s" ++
  nl ++ "            AND table_name = %s;" ++
  nl ++ "        ".

(** The [try] body of [list_databases]. *)
Definition list_databases_body (d : driver) : M string :=
  connect d ;;;
  cursor d ;;;
  execute d LIST_DATABASES_SQL [] ;;;
  rows <- fetchall d ;;
  text <- lift (join_first_column rows) ;;
  ret (py_or text "No databases found").

(** [list_databases] *)
Definition list_databases (d : driver) : frame * result string :=
  let (f, r) := list_databases_body d frame0 in
  match r with
  | inr text => leave d f text
  | inl e =>
      leave d (log_exception "list_databases failed" f)
       ("Internal error: " ++ exn_str e)
  end.

(** The [try] body of [list_tables]. *)
Definition list_tables_body (d : driver) (db_name : string) : M string :=
  connect d ;;;
  cursor d ;;;
  execute d LIST_TABLES_SQL [db_name] ;;;
  rows <- fetchall d ;;
  text <- lift (join_first_column rows) ;;
  ret (py_or text "No tables found").

(** [list_tables] *)
Definition list_tables (d : driver) (db_name : string)
  : frame * result string :=
  let (f, r) := list_tables_body d db_name frame0 in
  match r with
  | inr text => leave d f text
  | inl e =>
      leave d (log_exception "list_tables failed" f)
       ("Internal error: " ++ exn_str e)
  end.

(** One line of [table_schema]: [f"{c}: {t}"] for [c, t] drawn from a row. *)
Definition schema_line (r : row) : result string :=
  match unpack2 r with
  | inl e => inl e
  | inr (c, t) => inr (py_str c ++ ": " ++ py_str t)
  end.

(** The [try] body of [table_schema]. *)
Definition table_schema_body (d : driver) (db_name table : string)
  : M string :=
  connect d ;;;
  cursor d ;;;
  execute d TABLE_SCHEMA_SQL [db_name; table] ;;;
  rows <- fetchall d ;;
  if is_empty rows then ret ("No schema for " ++ table)
  else
    lines <- lift (map_result schema_line rows) ;;
    ret (Py.join nl lines).

(** [table_schema] *)
Definition table_schema (d : driver) (db_name table : string)
  : frame * result string :=
  let (f, r) := table_schema_body d db_name table frame0 in
  match r with
  | inr text => leave d f text
  | inl e =>
      leave d (log_exception "table_schema failed" f)
       ("Internal error: " ++ exn_str e)
  end.

(** The [try] body of [view_table].  [quote_ident] is how psycopg2
    renders [sql.Identifier(table)] inside the composed statement; the
    column names are read before the rows are tested. *)
Definition view_table_body (quote_ident : string -> string) (d : driver)
  (db_name table : string) : M string :=
  connect d ;;;
  cursor d ;;;
  let query := "SELECT * FROM " ++ quote_ident table ++ " LIMIT 10" in
  execute d query [] ;;;
  rows <- fetchall d ;;
  cols <- columns d ;;
  if is_empty rows then ret "No rows found"
  else ret (Py.join nl (map (str_row d cols) rows)).

(** [view_table] *)
Definition view_table (quote_ident : string -> string) (d : driver)
  (db_name table : string) : frame * result string :=
  let (f, r) := view_table_body quote_ident d db_name table frame0 in
  match r with
  | inr text => leave d f text
  | inl e =>
      leave d (log_exception "view_table failed" f)
       ("Internal error: " ++ exn_str e)
  end.

(** [hello_postgres] *)
Definition hello_postgres (name : string) : frame * string :=
  (log_info ("Hello called: " ++ name) frame0,
   "Hello from Postgres Explorer, " ++ name ++ "!").

End App.

(** ** [sqlserv.py]: the SQL Server backend *)

Module Sqlserv.

(** The elements of the set [DANGEROUS_SQL], as the source lists them. *)
Definition DANGEROUS_SQL : list string :=
  ["DROP"; "DELETE"; "TRUNCATE"; "ALTER";
   "UPDATE"; "INSERT"; "CREATE";
   "GRANT"; "REVOKE"; "BACKUP"; "RESTORE"].

Definition MAX_ROWS : nat := 1000.

(** [validate_query]: returns [None] or raises [ValueError].  [order] is
    the order in which the loop meets the elements of [DANGEROUS_SQL]. *)
Definition validate_query (order : list string) (query : string)
  : result unit :=
  let q := Py.upper (Py.strip query) in
  if negb (Py.startswith_any ["SELECT"; "WITH"; "SHOW"; "EXPLAIN"] q) then
    inl (ValueError "Only read-only queries allowed")
  else
    match find (fun word => Py.contains word q) order with
    | Some word => inl (ValueError ("Blocked keyword: " ++ word))
    | None => inr tt
    end.

(** [enforce_limit] *)
Definition enforce_limit (query : string) : string :=
  let q_upper := Py.upper query in
  if negb (Py.contains "TOP" q_upper) && Py.contains "SELECT" q_upper then
    Py.replace_first "SELECT" ("SELECT TOP " ++ Py.str_of_nat MAX_ROWS) query
  else query.

(** The catalog query of [view_table], a triple-quoted literal. *)
Definition CATALOG_LOOKUP : string :=
  nl ++ "                SELECT COUNT(" ++ "*" ++ ")" ++
  nl ++ "                FROM INFORMATION_SCHEMA.TABLES" ++
  nl ++ "                WHERE TABLE_SCHEMA = 'SalesLT' AND TABLE_NAME = ?" ++
  nl ++ "            ".

(** [row[0]] on what [fetchone] returned. *)
Definition item0 (r : option row) : result value :=
  match r with
  | None => inl (TypeError "'NoneType' object is not subscriptable")
  | Some [] => inl (IndexError "tuple index out of range")
  | Some (v :: _) => inr v
  end.

(** [v > 0] *)
Definition gt_zero (v : value) : result bool :=
  match v with
  | VInt z => inr (0 <? z)%Z
  | VNone =>
      inl (TypeError
        "'>' not supported between instances of 'NoneType' and 'int'")
  | VStr _ =>
      inl (TypeError
        "'>' not supported between instances of 'str' and 'int'")
  end.

(** The first [if] of [view_table]: a name without a dot is looked up in
    the catalog and qualified with [SalesLT] when the count is positive. *)
Definition qualify (d : driver) (table : string) : M string :=
  if negb (Py.contains "." table) then
    execute d CATALOG_LOOKUP [table] ;;;
    r <- fetchone d ;;
    v <- lift (item0 r) ;;
    b <- lift (gt_zero v) ;;
    ret (if b then "SalesLT." ++ table else table)
  else ret table.

(** The second [if] of [view_table]: the statement built from the name.
    Unpacking [table.split('.', 1)] into two names raises [ValueError]
    when the list has one element. *)
Definition build_query (table : string) : result string :=
  if Py.contains "." table then
    match Py.split_once "."%char table with
    | Some (schema, table_name) =>
        inr ("SELECT TOP 10 * FROM [" ++ schema ++ "].[" ++ table_name ++ "]")
    | None =>
        inl (ValueError "not enough values to unpack (expected 2, got 1)")
    end
  else inr ("SELECT TOP 10 * FROM [" ++ table ++ "]").

(** The [try] body of [view_table]. *)
Definition view_table_body (d : driver) (table : string) : M string :=
  connect d ;;;
  cursor d ;;;
  table <- qualify d table ;;
  query <- lift (build_query table) ;;
  execute d query [] ;;;
  rows <- fetchall d ;;
  if is_empty rows then ret "No rows found"
  else
    cols <- columns d ;;
    ret (Py.join nl (map (str_row d cols) rows)).

(** [view_table]: one handler, for every [Exception]. *)
Definition view_table (d : driver) (table : string)
  : frame * result string :=
  let (f, r) := view_table_body d table frame0 in
  match r with
  | inr text => leave d f text
  | inl e =>
      leave d (log_exception "view_table failed" f)
       ("Internal error: " ++ exn_str e)
  end.

(** The [try] body of [execute_query]. *)
Definition execute_query_body (d : driver) (order : list string)
  (query : string) : M string :=
  lift (validate_query order query) ;;;
  let query := enforce_limit query in
  connect d ;;;
  cursor d ;;;
  execute d "SET LOCK_TIMEOUT 30000" [] ;;;
  execute d query [] ;;;
  rows <- fetchall d ;;
  if is_empty rows then ret "No results"
  else
    cols <- columns d ;;
    ret (Py.join nl (map (str_row d cols) rows)).

(** [execute_query]: the body, the two handlers and the [finally] block. *)
Definition execute_query (d : driver) (order : list string)
  (query : string) : frame * result string :=
  let (f, r) := execute_query_body d order query frame0 in
  match r with
  | inr text => leave d f text
  | inl e =>
      if exn_is_ValueError e then
        leave d f ("Blocked: " ++ exn_str e)
      else
        leave d (log_exception "execute_query failed" f)
         ("Internal error: " ++ exn_str e)
  end.

(** The statements of the catalog tools, triple-quoted literals. *)
Definition LIST_DATABASES_SQL : string :=
  nl ++ "            SELECT name" ++
  nl ++ "            FROM sys.databases" ++
  nl ++ "            WHERE database_id > 4  -- Exclude system databases" ++
  nl ++ "            ORDER BY name" ++
  nl ++ "        ".

Definition LIST_TABLES_SQL : string :=
  nl ++ "            SELECT TABLE_SCHEMA + '.' + TABLE_NAME as full_table_name" ++
  nl ++ "            FROM INFORMATION_SCHEMA.TABLES" ++
  nl ++ "            WHERE TABLE_TYPE = 'BASE TABLE'" ++
  nl ++ "            ORDER BY TABLE_SCHEMA, TABLE_NAME" ++
  nl ++ "        ".

Definition TABLE_SCHEMA_SQL : string :=
  nl ++ "            SELECT " ++
  nl ++ "                COLUMN_NAME," ++
  nl ++ "                DATA_TYPE," ++
  nl ++ "                IS_NULLABLE," ++
  nl ++ "                COLUMN_DEFAULT," ++
  nl ++ "                CHARACTER_MAXIMUM_LENGTH" ++
  nl ++ "            FROM INFORMATION_SCHEMA.COLUMNS" ++
  nl ++ "            WHERE TABLE_NAME = ?" ++
  nl ++ "            ORDER BY ORDINAL_POSITION" ++
  nl ++ "        ".

(** The [try] body of [list_databases]. *)
Definition list_databases_body (d : driver) : M string :=
  connect d ;;;
  cursor d ;;;
  execute d LIST_DATABASES_SQL [] ;;;
  rows <- fetchall d ;;
  text <- lift (join_first_column rows) ;;
  ret (py_or text "No user databases found").

(** [list_databases] *)
Definition list_databases (d : driver) : frame * result string :=
  let (f, r) := list_databases_body d frame0 in
  match r with
  | inr text => leave d f text
  | inl e =>
      leave d (log_exception "list_databases failed" f)
       ("Internal error: " ++ exn_str e)
  end.

(** The [try] body of [list_tables]. *)
Definition list_tables_body (d : driver) : M string :=
  connect d ;;;
  cursor d ;;;
  execute d LIST_TABLES_SQL [] ;;;
  rows <- fetchall d ;;
  text <- lift (join_first_column rows) ;;
  ret (py_or text "No tables found").

(** [list_tables] *)
Definition list_tables (d : driver) : frame * result string :=
  let (f, r) := list_tables_body d frame0 in
  match r with
  | inr text => leave d f text
  | inl e =>
      leave d (log_exception "list_tables failed" f)
       ("Internal error: " ++ exn_str e)
  end.

(** One turn of the loop of [table_schema]: the row is unpacked into five
    names and [col_info] is built from them. *)
Definition column_info (r : row) : result string :=
  match r with
  | [col_name; data_type; nullable; default; max_length] =>
      let col_info := py_str col_name ++ ": " ++ py_str data_type in
      let col_info :=
        if truthy max_length then col_info ++ "(" ++ py_str max_length ++ ")"
        else col_info in
      let col_info :=
        if value_eq_str nullable "NO" then col_info ++ " NOT NULL"
        else col_info in
      let col_info :=
        if truthy default then col_info ++ " DEFAULT " ++ py_str default
        else col_info in
      inr col_info
  | _ :: _ :: _ :: _ :: _ :: _ :: _ =>
      inl (ValueError "too many values to unpack (expected 5)")
  | _ =>
      inl (ValueError ("not enough values to unpack (expected 5, got " ++
                       Py.str_of_nat (List.length r) ++ ")"))
  end.

(** The [try] body of [table_schema]. *)
Definition table_schema_body (d : driver) (table : string) : M string :=
  connect d ;;;
  cursor d ;;;
  execute d TABLE_SCHEMA_SQL [table] ;;;
  rows <- fetchall d ;;
  if is_empty rows then ret ("No schema found for table: " ++ table)
  else
    result <- lift (map_result column_info rows) ;;
    ret (Py.join nl result).

(** [table_schema] *)
Definition table_schema (d : driver) (table : string)
  : frame * result string :=
  let (f, r) := table_schema_body d table frame0 in
  match r with
  | inr text => leave d f text
  | inl e =>
      leave d (log_exception "table_schema failed" f)
       ("Internal error: " ++ exn_str e)
  end.

(** [version[:50]] on the value [fetchone()[0]] gave. *)
Definition first50 (v : value) : result string :=
  match v with
  | VStr s => inr (String.substring 0 50 s)
  | _ =>
      inl (TypeError ("'" ++ type_name v ++ "' object is not subscriptable"))
  end.

(** The [try] body of [hello_sqlserver]. *)
Definition hello_sqlserver_body (d : driver) (name : string) : M string :=
  connect d ;;;
  cursor d ;;;
  execute d "SELECT @@VERSION" [] ;;;
  r <- fetchone d ;;
  version <- lift (item0 r) ;;
  excerpt <- lift (first50 version) ;;
  ret ("Hello from SQL Server Explorer, " ++ name ++ "! Connected to: " ++
       excerpt ++ "...").

(** [hello_sqlserver]: the call is logged, then the body runs under one
    handler that does not log. *)
Definition hello_sqlserver (d : driver) (name : string)
  : frame * result string :=
  let (f, r) :=
    hello_sqlserver_body d name (log_info ("Hello called: " ++ name) frame0) in
  match r with
  | inr text => leave d f text
  | inl e =>
      leave d f ("Hello " ++ name ++ "! Connection failed: " ++ exn_str e)
  end.

End Sqlserv.

(** ** The specification's wording, for comparison with the code *)

Module Spec.

(** "Strip a single trailing statement terminator": one final [;] is
    removed when the text ends with one. *)
Fixpoint strip_terminator (s : string) : string :=
  match s with
  | EmptyString => EmptyString
  | String c EmptyString =>
      if Ascii.eqb c ";"%char then EmptyString else s
  | String c r => String c (strip_terminator r)
  end.

(** The suffix strategy as the specification words it. *)
Definition suffix_normalize (q : string) : string :=
  if negb (Py.contains "LIMIT" (Py.upper q)) then
    strip_terminator q ++ " LIMIT 1000"
  else q.

(** "Replace the first case-insensitive occurrence": the leftmost place
    where the upper-cased text reads [old] is rewritten. *)
Fixpoint replace_first_ci (old new s : string) : string :=
  if Py.startswith old (Py.upper s) then new ++ Py.drop (String.length old) s
  else
    match s with
    | EmptyString => EmptyString
    | String c r => String c (replace_first_ci old new r)
    end.

(** The prefix strategy as the specification words it. *)
Definition prefix_normalize (q : string) : string :=
  if negb (Py.contains "TOP" (Py.upper q)) then
    replace_first_ci "SELECT" "SELECT TOP 1000" q
  else q.

(** What the specification says of the validator's outcome [res] on
    [query], for a profile with the blocked keywords [blocked]: the text
    is upper-cased and trimmed; without an allowed prefix it is rejected;
    with one, it is rejected exactly when a blocked keyword occurs in it,
    and the reason names such a keyword; and a text in which a blocked
    keyword occurs anywhere, in whatever case, is rejected. *)
Definition validator_policy (blocked : list string) (query : string)
  (res : result unit) : Prop :=
  let q := Py.strip (Py.upper query) in
  ((forall p, In p ALLOWED_PREFIXES -> ~ Py.begins_with p q) ->
     res = inl (ValueError "Only read-only queries allowed"))
  /\
  ((exists p, In p ALLOWED_PREFIXES /\ Py.begins_with p q) ->
     ((exists e, res = inl e) <->
      (exists w, In w blocked /\ Py.occurs w q))
     /\
     (forall e, res = inl e ->
        exists w, In w blocked /\ Py.occurs w q /\
                  e = ValueError ("Blocked keyword: " ++ w)))
  /\
  (forall w, In w blocked -> Py.occurs w (Py.upper query) ->
     exists e, res = inl e).

(** A character of an identifier: a letter, a digit or the underscore. *)
Definition is_word_char (c : ascii) : bool :=
  let n := nat_of_ascii c in
  (((48 <=? n) && (n <=? 57)) || ((65 <=? n) && (n <=? 90)) ||
   ((97 <=? n) && (n <=? 122)) || (n =? 95))%nat.

(** [s] begins with [kw] as a whole word: [kw] is followed by the end of
    the text or by a character that cannot continue an identifier. *)
Definition begins_with_word (kw s : string) : bool :=
  Py.startswith kw s &&
  match Py.drop (String.length kw) s with
  | EmptyString => true
  | String c _ => negb (is_word_char c)
  end.

(** What a timeout directive bounds, by the documentation of the two
    engines: Postgres aborts a statement that runs longer than
    [statement_timeout]; SQL Server's [LOCK_TIMEOUT] bounds only the time
    a statement waits for a lock, and leaves its running time unbounded. *)
Inductive timeout_kind : Type :=
| StatementTimeout
| LockTimeout.

(** The directive that sets a bound of [ms] milliseconds of the kind. *)
Definition directive_of (k : timeout_kind) (ms : nat) : string :=
  match k with
  | StatementTimeout => "SET statement_timeout = " ++ Py.str_of_nat ms
  | LockTimeout => "SET LOCK_TIMEOUT " ++ Py.str_of_nat ms
  end.

End Spec.

(** ** Reading a trace *)

(** The statements passed to [cur.execute], in order. *)
Fixpoint executed (t : list event) : list string :=
  match t with
  | [] => []
  | EExecute sql _ :: rest => sql :: executed rest
  | _ :: rest => executed rest
  end.

(** ** Drivers for the concrete runs below *)

(** Every call returns; the statements yield no row. *)
Definition quiet_driver : driver :=
  mk_driver (fun _ => None) (fun _ => None) (fun _ _ _ => None)
            (fun _ => inr []) (fun _ => inr None) (fun _ => inr [])
            (fun _ => None) (fun _ => None)
            (fun s => "'" ++ s ++ "'").

(** [UnicodeEncodeError], a subclass of [ValueError]. *)
Definition UnicodeEncodeError (msg : string) : exn := mk_exn true msg.

(** A driver that cannot encode the statement it is given: [SET]
    directives pass, every other statement raises [UnicodeEncodeError]. *)
Definition encoding_driver : driver :=
  mk_driver (fun _ => None) (fun _ => None)
            (fun _ sql _ =>
               if Py.startswith "SET" sql then None
               else Some (UnicodeEncodeError "codec can't encode character"))
            (fun _ => inr []) (fun _ => inr None) (fun _ => inr [])
            (fun _ => None) (fun _ => None)
            (fun s => "'" ++ s ++ "'").

(** A database whose [SalesLT] schema holds every table asked for, and
    whose tables hold one row with the columns [id] and [name]. *)
Definition saleslt_driver : driver :=
  mk_driver (fun _ => None) (fun _ => None) (fun _ _ _ => None)
            (fun _ => inr [[VInt 1; VStr "a"]])
            (fun _ => inr (Some [VInt 1]))
            (fun _ => inr ["id"; "name"])
            (fun _ => None) (fun _ => None)
            (fun s => "'" ++ s ++ "'").

(** A driver on which nothing fails but [cur.close()]. *)
Definition closing_driver : driver :=
  mk_driver (fun _ => None) (fun _ => None) (fun _ _ _ => None)
            (fun _ => inr []) (fun _ => inr None) (fun _ => inr [])
            (fun _ => Some (mk_exn false "cursor already closed"))
            (fun _ => None)
            (fun s => "'" ++ s ++ "'").

(** ** Words that trimming cannot cut *)

(** The first and the last character of [w] are not white space. *)
Definition solid (w : string) : Prop :=
  exists c1 w1 w2 c2,
    w = String c1 w1 /\ w = w2 ++ String c2 "" /\
    Py.is_space c1 = false /\ Py.is_space c2 = false.

Fixpoint last_char (s : string) : option ascii :=
  match s with
  | EmptyString => None
  | String c EmptyString => Some c
  | String _ r => last_char r
  end.

(** The boolean test of [solid]. *)
Definition solidb (w : string) : bool :=
  match w, last_char w with
  | String c1 _, Some c2 => negb (Py.is_space c1) && negb (Py.is_space c2)
  | _, _ => false
  end.

(** ** Release of the connection and of the cursor *)

Definition is_close (e : event) : bool :=
  match e with
  | ECloseCursor | ECloseConn => true
  | _ => false
  end.

(** The calls of a trace that close nothing. *)
Definition before_close (t : list event) : list event :=
  filter (fun e => negb (is_close e)) t.

(** The closing calls owed at exit: the cursor when [cur] is bound, then
    the connection when [conn] is. *)
Definition closes (f : frame) : list event :=
  ((if cur_bound f then [ECloseCursor] else []) ++
   (if conn_bound f then [ECloseConn] else []))%list.

(** At exit everything held has been closed, once, in that order, and
    nothing is called afterwards. *)
Definition released (f : frame) : Prop :=
  trace f = (before_close (trace f) ++ closes f)%list.

(** What [cur.close()] answers at exit, [None] also when no cursor is
    held; and what [conn.close()] answers when it is reached. *)
Definition cursor_close_answer (d : driver) (f : frame) : option exn :=
  if cur_bound f then drv_close_cursor d (before_close (trace f)) else None.

Definition conn_close_answer (d : driver) (f : frame) : option exn :=
  if conn_bound f then
    drv_close_conn d
      (before_close (trace f)
       ++ (if cur_bound f then [ECloseCursor] else []))%list
  else None.

(** How a tool leaves.  When [cur.close()] raises, the trace ends with
    that call, the connection is not closed and the exception leaves the
    tool.  Otherwise everything held is released; the tool returns a text
    when [conn.close()] returns, and the exception of [conn.close()]
    leaves the tool when it raises. *)
Definition released_or_raised (d : driver) (r : frame * result string)
  : Prop :=
  let f := fst r in
  match cursor_close_answer d f with
  | Some e =>
      trace f = (before_close (trace f) ++ [ECloseCursor])%list /\
      snd r = inl e
  | None =>
      released f /\
      match conn_close_answer d f with
      | Some e => snd r = inl e
      | None => exists text, snd r = inr text
      end
  end.

(** The exception [e] is the one a closing call raised at exit: that of
    [cur.close()], or that of [conn.close()] after [cur.close()] had
    returned. *)
Definition close_raised (d : driver) (f : frame) (e : exn) : Prop :=
  cursor_close_answer d f = Some e \/
  (cursor_close_answer d f = None /\ conn_close_answer d f = Some e).

(** The tool returns a text of which [P] holds, unless a closing call of
    its [finally] block raised: that exception then leaves the tool. *)
Definition answers (d : driver) (r : frame * result string)
  (P : string -> Prop) : Prop :=
  match snd r with
  | inr text => P text
  | inl e => close_raised d (fst r) e
  end.

(** The statements of a trace with their parameters. *)
Fixpoint statements (t : list event) : list (string * list string) :=
  match t with
  | [] => []
  | EExecute sql ps :: rest => (sql, ps) :: statements rest
  | _ :: rest => statements rest
  end.

(** The messages handed to the logger. *)
Fixpoint logged (t : list event) : list string :=
  match t with
  | [] => []
  | ELog msg :: rest => msg :: logged rest
  | _ :: rest => logged rest
  end.

(** The release invariant of a tool that validates nothing: the tool
    leaves as [released_or_raised] says, the connection was held exactly
    when [connect] returned after the history [h0], and the cursor exactly
    when [cursor] returned after it. *)
Definition release_invariant (d : driver) (h0 : list event)
  (r : frame * result string) : Prop :=
  released_or_raised d r /\
  (conn_bound (fst r) = true <-> drv_connect d h0 = None) /\
  (cur_bound (fst r) = true <->
   drv_connect d h0 = None /\ drv_cursor d (h0 ++ [EConnect])%list = None).

(** ** What the catalog tools answer *)

(** The calls of a tool that executes [sql] with [ps] return, and
    [fetchall] delivers [rows]. *)
Definition reaches_rows (d : driver) (sql : string) (ps : list string)
  (rows : list row) : Prop :=
  drv_connect d [] = None /\
  drv_cursor d [EConnect] = None /\
  drv_execute d [EConnect; ECursor] sql ps = None /\
  drv_fetchall d [EConnect; ECursor; EExecute sql ps] = inr rows.

(** The first field of the row is the text [n]. *)
Definition names_row (r : row) (n : string) : Prop :=
  exists rest, r = VStr n :: rest.

(** The row has no first field that is a text. *)
Definition nameless (r : row) : Prop :=
  forall n rest, r <> VStr n :: rest.

(** The answer of a listing tool on [rows]: the names one per line, the
    sentinel when there is no name or the only name is empty, an internal
    error when a row has no name. *)
Definition listing_answer (sentinel : string) (rows : list row)
  (answer : string) : Prop :=
  (forall names, Forall2 names_row rows names ->
     (names = [] \/ names = [""] -> answer = sentinel) /\
     (names <> [] -> names <> [""] -> answer = Py.join nl names)) /\
  (Exists nameless rows -> Py.startswith "Internal error: " answer = true).

(** The line of a column begins with its name and its type. *)
Definition column_header (r : row) (line : string) : Prop :=
  exists c t rest,
    r = c :: t :: rest /\ Py.begins_with (py_str c ++ ": " ++ py_str t) line.

(** The answer of [table_schema] on [rows], each of which is to have
    [arity] fields, with the trace [t] of the run: the sentinel when
    there is no row; one line per row, beginning with the column's name
    and type; an internal error, which is logged, when a row has another
    number of fields. *)
Definition schema_answer (arity : nat) (sentinel : string)
  (rows : list row) (t : list event) (answer : string) : Prop :=
  (rows = [] -> answer = sentinel /\ logged t = []) /\
  (rows <> [] -> Forall (fun r => List.length r = arity) rows ->
   exists lines,
     answer = Py.join nl lines /\
     List.length lines = List.length rows /\
     Forall2 column_header rows lines) /\
  (Exists (fun r => List.length r <> arity) rows ->
   Py.startswith "Internal error: " answer = true /\
   logged t = ["table_schema failed"]).

(** ** Rows as dictionaries *)

(** In the list of pairs [ps] the last pair with the key [k] carries [v]. *)
Definition last_binding (ps : list (string * value)) (k : string)
  (v : value) : Prop :=
  exists l1 l2, ps = (l1 ++ (k, v) :: l2)%list /\ ~ In k (map fst l2).

(** ** The order of the calls on the driver *)

(** How far an invocation has come: nothing called yet; [connect] called;
    [cursor] called; a statement executed; the cursor closed; the
    connection closed. *)
Inductive phase : Type :=
| Idle | Connecting | WithCursor | Executed | CursorClosed | Closed.

(** The calls a phase admits, and the phase they lead to.  Writing to the
    log changes nothing; nothing may follow the closing of the
    connection. *)
Definition next_phase (ph : phase) (e : event) : option phase :=
  match ph, e with
  | Closed, _ => None
  | _, ELog _ => Some ph
  | Idle, EConnect => Some Connecting
  | Connecting, ECursor => Some WithCursor
  | Connecting, ECloseConn => Some Closed
  | WithCursor, EExecute _ _ => Some Executed
  | Executed, (EExecute _ _ | EFetchall | EFetchone | EDescription) =>
      Some Executed
  | (WithCursor | Executed), ECloseCursor => Some CursorClosed
  | (WithCursor | Executed), ECloseConn => Some Closed
  | CursorClosed, ECloseConn => Some Closed
  | _, _ => None
  end.

(** The trace follows the protocol from the phase [ph] on. *)
Fixpoint follows_protocol (ph : phase) (t : list event) : bool :=
  match t with
  | [] => true
  | e :: rest =>
      match next_phase ph e with
      | Some ph' => follows_protocol ph' rest
      | None => false
      end
  end.

(** ** The allowed prefixes *)

(** What the validator's prefixes have in common: the first and the last
    character are neither white space nor [;], and S does not occur after
    the first character. *)
Definition plain_prefix (P : string) : Prop :=
  exists c0 Pt cl,
    P = String c0 Pt /\ last_char P = Some cl /\
    Py.is_space c0 = false /\ Py.is_space cl = false /\
    Ascii.eqb cl ";"%char = false /\
    Py.contains "S" Pt = false.

(** A server with two databases, for the listing tools. *)
Definition names_driver : driver :=
  mk_driver (fun _ => None) (fun _ => None) (fun _ _ _ => None)
            (fun _ => inr [[VStr "postgres"]; [VStr "shop"]])
            (fun _ => inr (Some [VStr "Microsoft SQL Server 2022"]))
            (fun _ => inr ["datname"])
            (fun _ => None) (fun _ => None)
            (fun s => "'" ++ s ++ "'").

(** * Properties *)

(** ** Strings *)

Section StringFacts.

Lemma append_assoc_s (a b c : string) : (a ++ b) ++ c = a ++ b ++ c.
Proof.
  induction a as [|x a IH]; simpl; [reflexivity | now rewrite IH].
Qed.

Lemma append_nil_r_s (a : string) : a ++ "" = a.
Proof.
  induction a as [|x a IH]; simpl; [reflexivity | now rewrite IH].
Qed.

Lemma startswith_iff (p s : string) :
  Py.startswith p s = true <-> Py.begins_with p s.
Proof.
  unfold Py.begins_with. revert s.
  induction p as [|a p IH]; intros s; simpl.
  - split; [intros _; now exists s | reflexivity].
  - destruct s as [|b s].
    + split; [discriminate | intros [r Hr]; discriminate].
    + rewrite andb_true_iff, Ascii.eqb_eq, IH. split.
      * intros [-> [r ->]]. now exists r.
      * intros [r Hr]. injection Hr as -> ->. split; [reflexivity | now exists r].
Qed.

Lemma contains_iff (w s : string) :
  Py.contains w s = true <-> Py.occurs w s.
Proof.
  unfold Py.occurs.
  induction s as [|c s IH].
  - simpl. rewrite orb_false_r, startswith_iff. split.
    + intros [r Hr]. now exists "", r.
    + intros [a [b Hab]]. destruct a; [now exists b | discriminate].
  - cbn [Py.contains]. rewrite orb_true_iff, startswith_iff, IH. split.
    + intros [[r Hr] | [a [b Hab]]].
      * now exists "", r.
      * exists (String c a), b. simpl. now rewrite Hab.
    + intros [a [b Hab]]. destruct a as [|x a].
      * left. now exists b.
      * right. injection Hab as _ ->. now exists a, b.
Qed.

Lemma contains_false_iff (w s : string) :
  Py.contains w s = false <-> ~ Py.occurs w s.
Proof.
  rewrite <- contains_iff. destruct (Py.contains w s); split; intros H;
    try reflexivity; try discriminate; try (intros K; discriminate).
  now elim H.
Qed.

Lemma startswith_any_iff (ps : list string) (s : string) :
  Py.startswith_any ps s = true <->
  exists p, In p ps /\ Py.begins_with p s.
Proof.
  unfold Py.startswith_any. rewrite existsb_exists.
  split; intros [p [Hin Hp]]; exists p; split; trivial;
    now apply startswith_iff.
Qed.

Lemma upper_app (a b : string) :
  Py.upper (a ++ b) = Py.upper a ++ Py.upper b.
Proof.
  induction a as [|x a IH]; simpl; [reflexivity | now rewrite IH].
Qed.

Lemma is_space_upper_char (c : ascii) :
  Py.is_space (Py.upper_char c) = Py.is_space c.
Proof.
  destruct c as [[] [] [] [] [] [] [] []]; reflexivity.
Qed.

Lemma upper_lstrip (s : string) :
  Py.upper (Py.lstrip_by Py.is_space s)
  = Py.lstrip_by Py.is_space (Py.upper s).
Proof.
  induction s as [|c s IH]; simpl; [reflexivity|].
  rewrite is_space_upper_char.
  destruct (Py.is_space c); [exact IH | reflexivity].
Qed.

Lemma upper_rstrip (s : string) :
  Py.upper (Py.rstrip_by Py.is_space s)
  = Py.rstrip_by Py.is_space (Py.upper s).
Proof.
  induction s as [|c s IH]; simpl; [reflexivity|].
  rewrite <- IH, is_space_upper_char.
  destruct (Py.rstrip_by Py.is_space s); simpl; [|reflexivity].
  destruct (Py.is_space c); reflexivity.
Qed.

(** Upper-casing and trimming commute. *)
Lemma upper_strip (s : string) :
  Py.upper (Py.strip s) = Py.strip (Py.upper s).
Proof.
  unfold Py.strip. now rewrite upper_rstrip, upper_lstrip.
Qed.

Lemma occurs_upper (w s : string) :
  Py.occurs w s -> Py.occurs (Py.upper w) (Py.upper s).
Proof.
  intros [a [b ->]]. exists (Py.upper a), (Py.upper b).
  now rewrite !upper_app.
Qed.

(** [rstrip] keeps a character that is not to be dropped, and all that
    precedes it. *)
Lemma rstrip_by_keep (p : ascii -> bool) (c : ascii) (s : string) :
  p c = false ->
  Py.rstrip_by p (String c s) = String c (Py.rstrip_by p s).
Proof.
  intros Hc. simpl. destruct (Py.rstrip_by p s); [now rewrite Hc | reflexivity].
Qed.

Lemma rstrip_by_app (p : ascii -> bool) (a : string) (c : ascii) (s : string) :
  p c = false ->
  Py.rstrip_by p (a ++ String c s) = a ++ String c (Py.rstrip_by p s).
Proof.
  intros Hc. induction a as [|x a IH].
  - simpl append. now apply rstrip_by_keep.
  - change (String x a ++ String c s) with (String x (a ++ String c s)).
    cbn [Py.rstrip_by]. rewrite IH.
    destruct a; reflexivity.
Qed.

Lemma occurs_lstrip (w s : string) :
  solid w -> Py.occurs w s -> Py.occurs w (Py.lstrip_by Py.is_space s).
Proof.
  intros (c1 & w1 & _ & _ & Hw & _ & Hc1 & _) [a [b ->]].
  induction a as [|x a IH].
  - rewrite Hw. simpl. rewrite Hc1. exists "", b. reflexivity.
  - simpl. destruct (Py.is_space x).
    + exact IH.
    + exists (String x a), b. reflexivity.
Qed.

Lemma occurs_rstrip (w s : string) :
  solid w -> Py.occurs w s -> Py.occurs w (Py.rstrip_by Py.is_space s).
Proof.
  intros (_ & _ & w2 & c2 & _ & Hw & _ & Hc2) [a [b ->]].
  rewrite Hw. rewrite append_assoc_s. simpl append.
  rewrite <- append_assoc_s. rewrite rstrip_by_app by exact Hc2.
  exists a, (Py.rstrip_by Py.is_space b).
  now rewrite !append_assoc_s.
Qed.

Lemma occurs_strip (w s : string) :
  solid w -> Py.occurs w s -> Py.occurs w (Py.strip s).
Proof.
  intros Hw Hs. unfold Py.strip.
  now apply occurs_rstrip, occurs_lstrip.
Qed.

End StringFacts.

(** ** The validator *)

Section Validator.

Lemma last_char_app (s : string) (c : ascii) :
  last_char s = Some c -> exists r, s = r ++ String c "".
Proof.
  induction s as [|x s IH]; [discriminate|].
  destruct s as [|y s].
  - intros H. injection H as ->. now exists "".
  - intros H. destruct (IH H) as [r Hr]. exists (String x r).
    simpl. now rewrite <- Hr.
Qed.

Lemma solidb_solid (w : string) : solidb w = true -> solid w.
Proof.
  unfold solidb, solid. destruct w as [|c1 w1]; [discriminate|].
  destruct (last_char (String c1 w1)) as [c2|] eqn:Hl; [|discriminate].
  rewrite andb_true_iff, !negb_true_iff. intros [H1 H2].
  destruct (last_char_app _ _ Hl) as [w2 Hw2].
  now exists c1, w1, w2, c2.
Qed.

(** The blocked keywords are upper-case words without white space. *)
Lemma keywords_plain (w : string) :
  In w App.DANGEROUS_SQL \/ In w Sqlserv.DANGEROUS_SQL ->
  solid w /\ Py.upper w = w.
Proof.
  intros [H | H]; simpl in H;
    repeat (destruct H as [<- | H];
            [split; [apply solidb_solid|]; reflexivity|]);
    contradiction.
Qed.

(** Both backends carry the same validator. *)
Lemma validate_query_common :
  App.validate_query = validate /\ Sqlserv.validate_query = validate.
Proof. split; reflexivity. Qed.

(** The validator raises nothing but [ValueError]. *)
Lemma validate_raises_ValueError (order : list string) (query : string)
  (e : exn) :
  validate order query = inl e -> exn_is_ValueError e = true.
Proof.
  unfold validate.
  destruct (negb _); [intros H; now injection H as <-|].
  destruct (find _ order); intros H; [now injection H as <- | discriminate].
Qed.

(** Whether a text is accepted does not depend on the order in which the
    blocked keywords are met. *)
Lemma validate_accepts_iff (order : list string) (query : string) :
  validate order query = inr tt <->
  Py.startswith_any ALLOWED_PREFIXES (Py.upper (Py.strip query)) = true /\
  forall w, In w order -> Py.contains w (Py.upper (Py.strip query)) = false.
Proof.
  unfold validate.
  destruct (Py.startswith_any _ _); simpl negb; cbv iota.
  - destruct (find _ order) as [w|] eqn:Hf.
    + apply find_some in Hf. destruct Hf as [Hin Hc]. split; [discriminate|].
      intros [_ H]. rewrite (H w Hin) in Hc. discriminate.
    + split; [|reflexivity]. intros _. split; [reflexivity|].
      intros w Hin. exact (find_none _ _ Hf w Hin).
  - split; [discriminate | intros [H _]; discriminate].
Qed.

Lemma validate_policy (blocked order : list string) (query : string) :
  Permutation order blocked ->
  (forall w, In w blocked -> solid w) ->
  Spec.validator_policy blocked query (validate order query).
Proof.
  intros Hperm Hplain. unfold Spec.validator_policy, validate.
  rewrite upper_strip. set (q := Py.strip (Py.upper query)).
  destruct (Py.startswith_any ALLOWED_PREFIXES q) eqn:Hp; simpl negb; cbv iota.
  - apply startswith_any_iff in Hp.
    destruct (find (fun word => Py.contains word q) order) as [w|] eqn:Hf.
    + apply find_some in Hf. destruct Hf as [Hin Hc].
      apply contains_iff in Hc.
      assert (Hb : In w blocked) by (eapply Permutation_in; eassumption).
      split; [|split].
      * intros Hno. destruct Hp as [p [Hpin Hbw]]. now elim (Hno p).
      * intros _. split.
        -- split; intros _; [now exists w | eauto].
        -- intros e He. injection He as <-. now exists w.
      * intros _ _ _. eauto.
    + assert (Hnone : forall w, In w blocked -> ~ Py.occurs w q).
      { intros w Hin. apply contains_false_iff.
        apply (find_none _ _ Hf). apply Permutation_sym in Hperm.
        eapply Permutation_in; eassumption. }
      split; [|split].
      * intros Hno. destruct Hp as [p [Hpin Hbw]]. now elim (Hno p).
      * intros _. split.
        -- split; [intros [e He]; discriminate|].
           intros [w [Hin Ho]]. now elim (Hnone w).
        -- intros e He. discriminate.
      * intros w Hin Ho. exfalso. apply (Hnone w Hin).
        apply occurs_strip; [now apply Hplain | assumption].
  - split; [|split].
    + reflexivity.
    + intros Hex. apply startswith_any_iff in Hex. congruence.
    + intros _ _ _. eauto.
Qed.

End Validator.

Section ValidatorClaims.

(** C1.  For every query text the validator upper-cases and trims the
    text; it rejects when the result does not start with one of SELECT,
    WITH, SHOW, EXPLAIN; otherwise it rejects if and only if a blocked
    keyword of the profile (DROP, DELETE, TRUNCATE, ALTER, UPDATE, INSERT,
    CREATE, GRANT, REVOKE, and VACUUM for Postgres, BACKUP and RESTORE for
    SQL Server) occurs as a substring of the normalised text, and the
    reason reports such a keyword; and every text in which a blocked
    keyword occurs anywhere is rejected.  This holds whatever the order in
    which the set of blocked keywords is iterated. *)
Theorem validate_query_policy (order_pg order_ts : list string)
  (query : string) :
  Permutation order_pg App.DANGEROUS_SQL ->
  Permutation order_ts Sqlserv.DANGEROUS_SQL ->
  Spec.validator_policy
    ["DROP"; "DELETE"; "TRUNCATE"; "ALTER"; "UPDATE"; "INSERT"; "CREATE";
     "GRANT"; "REVOKE"; "VACUUM"]
    query (App.validate_query order_pg query)
  /\
  Spec.validator_policy
    ["DROP"; "DELETE"; "TRUNCATE"; "ALTER"; "UPDATE"; "INSERT"; "CREATE";
     "GRANT"; "REVOKE"; "BACKUP"; "RESTORE"]
    query (Sqlserv.validate_query order_ts query).
Proof.
  intros Hpg Hts. split.
  - apply (validate_policy App.DANGEROUS_SQL); [exact Hpg|].
    intros w Hin. apply (keywords_plain w). now left.
  - apply (validate_policy Sqlserv.DANGEROUS_SQL); [exact Hts|].
    intros w Hin. apply (keywords_plain w). now right.
Qed.

Lemma validate_query_policy_witness :
  Permutation (rev App.DANGEROUS_SQL) App.DANGEROUS_SQL /\
  Permutation (rev Sqlserv.DANGEROUS_SQL) Sqlserv.DANGEROUS_SQL /\
  Spec.validator_policy App.DANGEROUS_SQL "select updated_at from t"
    (App.validate_query (rev App.DANGEROUS_SQL) "select updated_at from t") /\
  Spec.validator_policy Sqlserv.DANGEROUS_SQL "select updated_at from t"
    (Sqlserv.validate_query (rev Sqlserv.DANGEROUS_SQL)
       "select updated_at from t").
Proof.
  assert (Hpg : Permutation (rev App.DANGEROUS_SQL) App.DANGEROUS_SQL)
    by (apply Permutation_sym, Permutation_rev).
  assert (Hts : Permutation (rev Sqlserv.DANGEROUS_SQL) Sqlserv.DANGEROUS_SQL)
    by (apply Permutation_sym, Permutation_rev).
  split; [exact Hpg | split; [exact Hts|]].
  exact (validate_query_policy (rev App.DANGEROUS_SQL)
           (rev Sqlserv.DANGEROUS_SQL) "select updated_at from t" Hpg Hts).
Defined.

(** A text in which two blocked keywords occur: the keyword reported is
    the one the iteration meets first. *)
Example reported_keyword_follows_order :
  App.validate_query ["DROP"; "DELETE"] "SELECT 1; DROP t; DELETE u"
  = inl (ValueError "Blocked keyword: DROP") /\
  App.validate_query ["DELETE"; "DROP"] "SELECT 1; DROP t; DELETE u"
  = inl (ValueError "Blocked keyword: DELETE").
Proof. split; reflexivity. Qed.

(** C7, as stated, fails: on [DROP TABLE users;] neither validator gives
    a reason in which DROP occurs. *)
Lemma drop_table_reason_counterexample :
  ~ ((exists e, App.validate_query App.DANGEROUS_SQL "DROP TABLE users;"
                = inl e /\ Py.occurs "DROP" (exn_str e))
     \/
     (exists e, Sqlserv.validate_query Sqlserv.DANGEROUS_SQL
                  "DROP TABLE users;" = inl e /\
                Py.occurs "DROP" (exn_str e))).
Proof.
  intros [[e [He Ho]] | [e [He Ho]]];
    vm_compute in He; injection He as <-;
    apply contains_iff in Ho; vm_compute in Ho; discriminate.
Qed.

(** C7, amended.  On [DROP TABLE users;] the validator of either backend
    rejects the query at the prefix check, before the keywords are
    scanned: the reason is the prefix requirement, in which DROP does not
    occur, and [execute_query] answers with that reason without a call on
    the driver. *)
Theorem drop_table_rejected_at_prefix (d : driver)
  (order_pg order_ts : list string) (db_name : string) :
  App.validate_query order_pg "DROP TABLE users;"
    = inl (ValueError "Only read-only queries allowed") /\
  Sqlserv.validate_query order_ts "DROP TABLE users;"
    = inl (ValueError "Only read-only queries allowed") /\
  Py.contains "DROP" "Only read-only queries allowed" = false /\
  App.execute_query d order_pg db_name "DROP TABLE users;"
    = (frame0, inr "Blocked: Only read-only queries allowed") /\
  Sqlserv.execute_query d order_ts "DROP TABLE users;"
    = (frame0, inr "Blocked: Only read-only queries allowed").
Proof. repeat split. Qed.

(** C9.  The prefix check compares characters, not words: the text
    [selected_rows], whose trimmed upper-case form begins with SELECTED
    and with none of the allowed keywords as a whole word, and in which no
    blocked keyword occurs, is accepted by both validators. *)
Theorem selected_prefix_accepted (order_pg order_ts : list string) :
  Permutation order_pg App.DANGEROUS_SQL ->
  Permutation order_ts Sqlserv.DANGEROUS_SQL ->
  let query := "  selected_rows " in
  let q := Py.upper (Py.strip query) in
  Py.begins_with "SELECTED" q /\
  (forall p, In p ALLOWED_PREFIXES -> Spec.begins_with_word p q = false) /\
  (forall w, In w App.DANGEROUS_SQL \/ In w Sqlserv.DANGEROUS_SQL ->
             ~ Py.occurs w q) /\
  App.validate_query order_pg query = inr tt /\
  Sqlserv.validate_query order_ts query = inr tt.
Proof.
  intros Hpg Hts query q.
  assert (Hno : forall w,
             In w App.DANGEROUS_SQL \/ In w Sqlserv.DANGEROUS_SQL ->
             Py.contains w q = false).
  { intros w [H | H]; simpl in H;
      repeat (destruct H as [<- | H]; [reflexivity|]); contradiction. }
  split; [now exists "_ROWS"|].
  split.
  { intros p H. simpl in H.
    repeat (destruct H as [<- | H]; [reflexivity|]); contradiction. }
  split; [intros w H; apply contains_false_iff; now apply Hno|].
  split; apply validate_accepts_iff; (split; [reflexivity|]); intros w Hin;
    apply Hno.
  - left. eapply Permutation_in; eassumption.
  - right. eapply Permutation_in; eassumption.
Qed.

Lemma selected_prefix_accepted_witness :
  Permutation App.DANGEROUS_SQL App.DANGEROUS_SQL /\
  Permutation Sqlserv.DANGEROUS_SQL Sqlserv.DANGEROUS_SQL /\
  App.validate_query App.DANGEROUS_SQL "  selected_rows " = inr tt /\
  Sqlserv.validate_query Sqlserv.DANGEROUS_SQL "  selected_rows " = inr tt.
Proof.
  split; [apply Permutation_refl | split; [apply Permutation_refl|]].
  exact (proj2 (proj2 (proj2
    (selected_prefix_accepted App.DANGEROUS_SQL Sqlserv.DANGEROUS_SQL
       (Permutation_refl _) (Permutation_refl _))))).
Defined.

End ValidatorClaims.

(** ** The row-cap normalisers *)

Section Normalizer.

Lemma drop_length_app (a b : string) : Py.drop (String.length a) (a ++ b) = b.
Proof. induction a as [|x a IH]; simpl; [reflexivity | exact IH]. Qed.

(** What [rstrip] removes is a run of characters to be dropped... *)
Lemma rstrip_by_decomp (p : ascii -> bool) (s : string) :
  exists tail,
    s = Py.rstrip_by p s ++ tail /\
    forall c, In c (list_ascii_of_string tail) -> p c = true.
Proof.
  induction s as [|x s [tail [Heq Hall]]].
  - exists "". split; [reflexivity | intros c []].
  - simpl. destruct (Py.rstrip_by p s) as [|y r] eqn:Hr.
    + destruct (p x) eqn:Hx.
      * exists (String x s). split; [reflexivity|].
        simpl in Heq. subst tail. intros c [<- | Hin]; auto.
      * exists s. split; [reflexivity|].
        simpl in Heq. now subst tail.
    + exists tail. split; [|exact Hall].
      simpl. simpl in Heq. now rewrite <- Heq.
Qed.

(** ... and what it leaves does not end with such a character. *)
Lemma rstrip_by_last (p : ascii -> bool) (s r : string) (c : ascii) :
  Py.rstrip_by p s = r ++ String c "" -> p c = false.
Proof.
  revert r. induction s as [|x s IH]; intros r.
  - simpl. destruct r; discriminate.
  - simpl. destruct (Py.rstrip_by p s) as [|y t] eqn:Hr.
    + destruct (p x) eqn:Hx.
      * destruct r; discriminate.
      * destruct r as [|z r]; simpl; intros H.
        -- injection H as <-. exact Hx.
        -- injection H as _ H. destruct r; discriminate.
    + destruct r as [|z r]; simpl; intros H.
      * discriminate.
      * injection H as _ H. now apply (IH r).
Qed.

(** [replace_first] rewrites the leftmost occurrence. *)
Lemma replace_first_split (old new s : string) :
  Py.contains old s = true ->
  exists a b,
    s = a ++ old ++ b /\
    Py.replace_first old new s = a ++ new ++ b /\
    forall a' b', s = a' ++ old ++ b' ->
                  String.length a <= String.length a'.
Proof.
  induction s as [|c s IH]; intros Hc.
  - simpl in Hc. rewrite orb_false_r in Hc.
    cbn [Py.replace_first]. rewrite Hc.
    apply startswith_iff in Hc. destruct Hc as [r Hr].
    exists "", r. repeat split.
    + exact Hr.
    + rewrite Hr at 1. now rewrite drop_length_app.
    + intros; simpl; lia.
  - cbn [Py.replace_first Py.contains] in *.
    destruct (Py.startswith old (String c s)) eqn:Hs.
    + apply startswith_iff in Hs. destruct Hs as [r Hr].
      exists "", r. repeat split.
      * exact Hr.
      * rewrite Hr at 1. now rewrite drop_length_app.
      * intros; simpl; lia.
    + simpl in Hc. destruct (IH Hc) as (a & b & Heq & Hrep & Hleft).
      exists (String c a), b. repeat split.
      * simpl. now rewrite <- Heq.
      * simpl. now rewrite Hrep.
      * intros a' b' H'. destruct a' as [|x a'].
        -- assert (Py.startswith old (String c s) = true)
             by (apply startswith_iff; now exists b').
           congruence.
        -- injection H' as _ H'. simpl. apply le_n_S. now apply (Hleft a' b').
Qed.

(** Without an occurrence, [replace_first] returns the text. *)
Lemma replace_first_absent (old new s : string) :
  Py.contains old s = false -> Py.replace_first old new s = s.
Proof.
  induction s as [|c s IH]; cbn [Py.replace_first Py.contains]; intros H;
    apply orb_false_iff in H; destruct H as [H1 H2]; rewrite H1.
  - reflexivity.
  - now rewrite IH.
Qed.

(** The text the suffix strategy appends names LIMIT. *)
Lemma limit_in_capped (s : string) :
  Py.contains "LIMIT" (Py.upper (s ++ " LIMIT " ++ Py.str_of_nat App.MAX_ROWS))
  = true.
Proof.
  apply contains_iff. rewrite upper_app.
  exists (Py.upper s ++ " "), " 1000". now rewrite append_assoc_s.
Qed.

(** The text the prefix strategy inserts names TOP. *)
Lemma top_in_capped (a b : string) :
  Py.contains "TOP"
    (Py.upper (a ++ ("SELECT TOP " ++ Py.str_of_nat Sqlserv.MAX_ROWS) ++ b))
  = true.
Proof.
  apply contains_iff. rewrite !upper_app.
  exists (Py.upper a ++ "SELECT "), (" 1000" ++ Py.upper b).
  now rewrite !append_assoc_s.
Qed.

Lemma enforce_limit_pg_idempotent (q : string) :
  App.enforce_limit (App.enforce_limit q) = App.enforce_limit q.
Proof.
  destruct (Py.contains "LIMIT" (Py.upper q)) eqn:Hq.
  - assert (Hid : App.enforce_limit q = q)
      by (unfold App.enforce_limit; now rewrite Hq).
    now rewrite !Hid.
  - assert (Hcap : App.enforce_limit q
                   = Py.rstrip_by (fun c => Ascii.eqb c ";"%char) q
                     ++ " LIMIT " ++ Py.str_of_nat App.MAX_ROWS)
      by (unfold App.enforce_limit; now rewrite Hq).
    rewrite Hcap. unfold App.enforce_limit.
    now rewrite limit_in_capped.
Qed.

Lemma enforce_limit_tsql_idempotent (q : string) :
  Sqlserv.enforce_limit (Sqlserv.enforce_limit q) = Sqlserv.enforce_limit q.
Proof.
  destruct (negb (Py.contains "TOP" (Py.upper q)) &&
            Py.contains "SELECT" (Py.upper q)) eqn:Hg.
  - assert (Hcap : Sqlserv.enforce_limit q
                   = Py.replace_first "SELECT"
                       ("SELECT TOP " ++ Py.str_of_nat Sqlserv.MAX_ROWS) q)
      by (unfold Sqlserv.enforce_limit; cbv zeta; now rewrite Hg).
    destruct (Py.contains "SELECT" q) eqn:Hs.
    + destruct (replace_first_split "SELECT"
                  ("SELECT TOP " ++ Py.str_of_nat Sqlserv.MAX_ROWS) q Hs)
        as (a & b & _ & Hrep & _).
      rewrite Hcap, Hrep. unfold Sqlserv.enforce_limit. cbv zeta.
      now rewrite top_in_capped.
    + rewrite (replace_first_absent _ _ _ Hs) in Hcap. now rewrite !Hcap.
  - assert (Hid : Sqlserv.enforce_limit q = q)
      by (unfold Sqlserv.enforce_limit; cbv zeta; now rewrite Hg).
    now rewrite !Hid.
Qed.

End Normalizer.

Section NormalizerClaims.

(** What the prefix strategy of [sqlserv.py] does: a text in which TOP
    occurs in some case, or SELECT in no case, is returned as it is;
    otherwise the leftmost SELECT written in capitals is followed by the
    row cap, and a text without one is returned as it is. *)
Lemma enforce_limit_tsql_behaviour (q : string) :
  (Py.contains "TOP" (Py.upper q) = true -> Sqlserv.enforce_limit q = q) /\
  (Py.contains "SELECT" q = false -> Sqlserv.enforce_limit q = q) /\
  (Py.contains "TOP" (Py.upper q) = false ->
   Py.contains "SELECT" q = true ->
   exists a b,
     q = a ++ "SELECT" ++ b /\
     (forall a' b', q = a' ++ "SELECT" ++ b' ->
                    String.length a <= String.length a') /\
     Sqlserv.enforce_limit q = a ++ "SELECT TOP 1000" ++ b).
Proof.
  unfold Sqlserv.enforce_limit. cbv zeta. repeat split.
  - intros ->. reflexivity.
  - intros Hs. rewrite (replace_first_absent _ _ _ Hs).
    now destruct (_ && _).
  - intros Ht Hs.
    destruct (replace_first_split "SELECT"
                ("SELECT TOP " ++ Py.str_of_nat Sqlserv.MAX_ROWS) q Hs)
      as (a & b & Heq & Hrep & Hleft).
    exists a, b. repeat split; trivial.
    rewrite Ht. simpl negb.
    assert (Hu : Py.contains "SELECT" (Py.upper q) = true).
    { apply contains_iff. apply contains_iff in Hs.
      exact (occurs_upper "SELECT" q Hs). }
    rewrite Hu. exact Hrep.
Qed.

(** C3.  The prefix strategy on SELECT written in small letters: the text
    [select name from employees] is accepted by the validator, TOP does
    not occur in it in any case and SELECT occurs in it when case is
    ignored, yet [enforce_limit] returns it as it is, without the row cap
    the specification's wording puts after the first case-insensitive
    SELECT.  Written in capitals, the same query is capped as the
    specification's example says. *)
Theorem enforce_limit_tsql_lowercase_select :
  let q := "select name from employees" in
  Sqlserv.validate_query Sqlserv.DANGEROUS_SQL q = inr tt /\
  Py.contains "TOP" (Py.upper q) = false /\
  Py.startswith "SELECT" (Py.upper q) = true /\
  Sqlserv.enforce_limit q = q /\
  Py.contains "TOP" (Py.upper (Sqlserv.enforce_limit q)) = false /\
  Spec.prefix_normalize q = "SELECT TOP 1000 name from employees" /\
  Sqlserv.enforce_limit q <> Spec.prefix_normalize q /\
  Sqlserv.enforce_limit "SELECT name FROM employees"
    = "SELECT TOP 1000 name FROM employees".
Proof.
  cbv zeta. repeat split; try reflexivity.
  vm_compute. discriminate.
Qed.

(** C4, as stated, fails: on the accepted text [SELECT 1;;] the code
    removes both terminators, the specification's wording only one. *)
Lemma enforce_limit_single_terminator_counterexample :
  ~ (forall q,
       App.validate_query App.DANGEROUS_SQL q = inr tt ->
       App.enforce_limit q = Spec.suffix_normalize q).
Proof.
  intros H. specialize (H "SELECT 1;;" eq_refl).
  vm_compute in H. discriminate.
Qed.

(** C4, amended.  Under the suffix strategy a text in which LIMIT occurs
    in some case is returned unchanged; from any other text every trailing
    [;] is removed (the text is [body] followed by semicolons only, and
    [body] does not end with one) and [ LIMIT 1000] is appended.  In
    particular [SELECT name FROM employees] becomes
    [SELECT name FROM employees LIMIT 1000]. *)
Theorem enforce_limit_suffix_strategy (q : string) :
  (Py.contains "LIMIT" (Py.upper q) = true -> App.enforce_limit q = q) /\
  (Py.contains "LIMIT" (Py.upper q) = false ->
   exists body tail,
     q = body ++ tail /\
     (forall c, In c (list_ascii_of_string tail) -> c = ";"%char) /\
     (forall r, body <> r ++ ";") /\
     App.enforce_limit q = body ++ " LIMIT 1000") /\
  App.enforce_limit "SELECT name FROM employees"
    = "SELECT name FROM employees LIMIT 1000".
Proof.
  split; [|split; [|reflexivity]].
  - intros H. unfold App.enforce_limit. now rewrite H.
  - intros H. set (p := fun c : ascii => Ascii.eqb c ";"%char).
    destruct (rstrip_by_decomp p q) as [tail [Heq Hall]].
    exists (Py.rstrip_by p q), tail. repeat split.
    + exact Heq.
    + intros c Hin. apply Ascii.eqb_eq. exact (Hall c Hin).
    + intros r Hr. apply rstrip_by_last in Hr. discriminate.
    + unfold App.enforce_limit. now rewrite H.
Qed.

Lemma enforce_limit_suffix_strategy_witness :
  Py.contains "LIMIT" (Py.upper "SELECT 1;;") = false /\
  exists body tail,
    "SELECT 1;;" = body ++ tail /\
    (forall c, In c (list_ascii_of_string tail) -> c = ";"%char) /\
    (forall r, body <> r ++ ";") /\
    App.enforce_limit "SELECT 1;;" = body ++ " LIMIT 1000".
Proof.
  split; [reflexivity|].
  exact (proj1 (proj2 (enforce_limit_suffix_strategy "SELECT 1;;")) eq_refl).
Defined.

(** C8, as stated, fails: there is no text on which applying the prefix
    strategy twice differs from applying it once. *)
Lemma prefix_not_idempotent_counterexample :
  ~ (exists q,
       Sqlserv.enforce_limit (Sqlserv.enforce_limit q)
       <> Sqlserv.enforce_limit q).
Proof.
  intros [q Hq]. apply Hq. apply enforce_limit_tsql_idempotent.
Qed.

(** C8, amended.  Both normalisers are idempotent: for every text,
    applying the suffix strategy twice equals applying it once, and so
    does applying the prefix strategy twice; a first application of the
    prefix strategy to [SELECT * FROM t] yields
    [SELECT TOP 1000 * FROM t]. *)
Theorem enforce_limit_idempotent (q : string) :
  App.enforce_limit (App.enforce_limit q) = App.enforce_limit q /\
  Sqlserv.enforce_limit (Sqlserv.enforce_limit q) = Sqlserv.enforce_limit q /\
  Sqlserv.enforce_limit "SELECT * FROM t" = "SELECT TOP 1000 * FROM t".
Proof.
  split; [apply enforce_limit_pg_idempotent|].
  split; [apply enforce_limit_tsql_idempotent | reflexivity].
Qed.

End NormalizerClaims.

(** ** The tool functions *)

Section Execution.

Ltac unfold_run :=
  unfold App.execute_query, App.execute_query_body,
         Sqlserv.execute_query, Sqlserv.execute_query_body,
         Sqlserv.view_table, Sqlserv.view_table_body, Sqlserv.qualify,
         bind, lift, ret, connect, cursor, execute, fetchall, fetchone,
         columns, leave, finally_close, close_conn, log_exception, emit,
         frame0; simpl.

(** One case per answer of the validator and of the driver. *)
Ltac case_run :=
  repeat
    (match goal with
     | |- context [App.validate_query ?o ?q] =>
         let H := fresh "Hv" in
         destruct (App.validate_query o q) as [?e | []] eqn:H;
         [try rewrite (validate_raises_ValueError _ _ _ H)|]
     | |- context [Sqlserv.validate_query ?o ?q] =>
         let H := fresh "Hv" in
         destruct (Sqlserv.validate_query o q) as [?e | []] eqn:H;
         [try rewrite (validate_raises_ValueError _ _ _ H)|]
     | |- context [drv_connect ?d ?h] =>
         let H := fresh "Hconn" in destruct (drv_connect d h) eqn:H
     | |- context [drv_cursor ?d ?h] =>
         let H := fresh "Hcur" in destruct (drv_cursor d h) eqn:H
     | |- context [drv_execute ?d ?h ?s ?p] =>
         let H := fresh "Hexec" in destruct (drv_execute d h s p) eqn:H
     | |- context [drv_fetchone ?d ?h] =>
         let H := fresh "Hone" in
         destruct (drv_fetchone d h) as [?e | [[|[|?z|?s] ?r]|]] eqn:H
     | |- context [drv_fetchall ?d ?h] =>
         let H := fresh "Hall" in
         destruct (drv_fetchall d h) as [?e | [|? ?]] eqn:H
     | |- context [drv_columns ?d ?h] =>
         let H := fresh "Hcols" in destruct (drv_columns d h) eqn:H
     | |- context [exn_is_ValueError ?e] =>
         let H := fresh "Hcls" in destruct (exn_is_ValueError e) eqn:H
     | |- context [(0 <? ?z)%Z] =>
         let H := fresh "Hpos" in destruct (0 <? z)%Z eqn:H
     | |- context [drv_close_cursor ?d ?h] =>
         lazymatch h with
         | context [trace] => fail
         | _ => let H := fresh "Hclc" in destruct (drv_close_cursor d h) eqn:H
         end
     | |- context [drv_close_conn ?d ?h] =>
         lazymatch h with
         | context [trace] => fail
         | _ => let H := fresh "Hcln" in destruct (drv_close_conn d h) eqn:H
         end
     end; simpl).

(** The calls at the positions of a concrete trace. *)
Ltac nth_cases H :=
  repeat
    (match type of H with
     | nth_error _ ?n = _ => destruct n; simpl in H; try discriminate H
     end).

(** A rejected query makes no call on the driver. *)
Lemma rejected_run_pg (d : driver) (order : list string)
  (db_name query : string) (e : exn) :
  App.validate_query order query = inl e ->
  App.execute_query d order db_name query
  = (frame0, inr ("Blocked: " ++ exn_str e)).
Proof.
  intros H. unfold_run. rewrite H. simpl.
  now rewrite (validate_raises_ValueError _ _ _ H).
Qed.

Lemma rejected_run_tsql (d : driver) (order : list string)
  (query : string) (e : exn) :
  Sqlserv.validate_query order query = inl e ->
  Sqlserv.execute_query d order query
  = (frame0, inr ("Blocked: " ++ exn_str e)).
Proof.
  intros H. unfold_run. rewrite H. simpl.
  now rewrite (validate_raises_ValueError _ _ _ H).
Qed.

(** A run that called the driver began with [connect], after the
    validator had accepted the query. *)
Lemma driver_called_pg (d : driver) (order : list string)
  (db_name query : string) :
  trace (fst (App.execute_query d order db_name query)) <> [] ->
  App.validate_query order query = inr tt /\
  exists rest,
    trace (fst (App.execute_query d order db_name query)) = EConnect :: rest.
Proof.
  unfold_run. case_run; intros H; try (now elim H);
    (split; [reflexivity | eexists; reflexivity]).
Qed.

Lemma driver_called_tsql (d : driver) (order : list string)
  (query : string) :
  trace (fst (Sqlserv.execute_query d order query)) <> [] ->
  Sqlserv.validate_query order query = inr tt /\
  exists rest,
    trace (fst (Sqlserv.execute_query d order query)) = EConnect :: rest.
Proof.
  unfold_run. case_run; intros H; try (now elim H);
    (split; [reflexivity | eexists; reflexivity]).
Qed.

(** C2.  On the [execute_query] path the validator runs before a
    connection is acquired and before a statement is executed: when
    validation rejects the query the run makes no call on the driver (no
    connection is opened, nothing is executed) and answers with the
    reason; and a run that did call the driver started with [connect],
    on a query the validator had accepted. *)
Theorem validation_precedes_connection (d : driver)
  (order_pg order_ts : list string) (db_name query : string) :
  (forall e, App.validate_query order_pg query = inl e ->
     App.execute_query d order_pg db_name query
     = (frame0, inr ("Blocked: " ++ exn_str e))) /\
  (forall e, Sqlserv.validate_query order_ts query = inl e ->
     Sqlserv.execute_query d order_ts query
     = (frame0, inr ("Blocked: " ++ exn_str e))) /\
  (trace (fst (App.execute_query d order_pg db_name query)) <> [] ->
     App.validate_query order_pg query = inr tt /\
     exists rest,
       trace (fst (App.execute_query d order_pg db_name query))
       = EConnect :: rest) /\
  (trace (fst (Sqlserv.execute_query d order_ts query)) <> [] ->
     Sqlserv.validate_query order_ts query = inr tt /\
     exists rest,
       trace (fst (Sqlserv.execute_query d order_ts query))
       = EConnect :: rest).
Proof.
  split; [intros e; apply rejected_run_pg|].
  split; [intros e; apply rejected_run_tsql|].
  split; [apply driver_called_pg | apply driver_called_tsql].
Qed.

Lemma validation_precedes_connection_witness :
  App.validate_query App.DANGEROUS_SQL "SELECT 1; DROP TABLE users"
    = inl (ValueError "Blocked keyword: DROP") /\
  App.execute_query quiet_driver App.DANGEROUS_SQL "db"
    "SELECT 1; DROP TABLE users"
    = (frame0, inr "Blocked: Blocked keyword: DROP").
Proof.
  split; [reflexivity|].
  exact (proj1 (validation_precedes_connection quiet_driver
                  App.DANGEROUS_SQL Sqlserv.DANGEROUS_SQL "db"
                  "SELECT 1; DROP TABLE users")
               (ValueError "Blocked keyword: DROP") eq_refl).
Defined.

(** On an accepted query, an exception of the body whose class derives
    from [ValueError] is answered as a rejection, and nothing is
    logged. *)
Lemma value_error_blocked_pg (d : driver) (order : list string)
  (db_name query : string) (e : exn) :
  App.validate_query order query = inr tt ->
  snd (App.execute_query_body d order db_name query frame0) = inl e ->
  exn_is_ValueError e = true ->
  answers d (App.execute_query d order db_name query)
    (fun text => text = "Blocked: " ++ exn_str e) /\
  logged (trace (fst (App.execute_query d order db_name query))) = [].
Proof.
  unfold answers, close_raised, cursor_close_answer, conn_close_answer,
    before_close.
  unfold_run.
  case_run; intros Hacc Hbody Hve; try discriminate;
    injection Hbody as <-; try congruence; auto.
Qed.

Lemma value_error_blocked_tsql (d : driver) (order : list string)
  (query : string) (e : exn) :
  Sqlserv.validate_query order query = inr tt ->
  snd (Sqlserv.execute_query_body d order query frame0) = inl e ->
  exn_is_ValueError e = true ->
  answers d (Sqlserv.execute_query d order query)
    (fun text => text = "Blocked: " ++ exn_str e) /\
  logged (trace (fst (Sqlserv.execute_query d order query))) = [].
Proof.
  unfold answers, close_raised, cursor_close_answer, conn_close_answer,
    before_close.
  unfold_run.
  case_run; intros Hacc Hbody Hve; try discriminate;
    injection Hbody as <-; try congruence; auto.
Qed.

(** C5.  Where [execute_query] departs from the claim.  On the accepted
    query [SELECT 1], a driver that cannot encode the statement raises
    [UnicodeEncodeError], a [ValueError]: both backends answer with
    [Blocked: ] and log nothing, where [view_table] answers the same
    failure with [Internal error: ] and logs it.  This holds of every
    failure of the body whose exception derives from [ValueError].  And
    when [cur.close()] raises in the [finally] block, no text is
    returned: the exception leaves [execute_query], with the connection
    still open. *)
Theorem execute_query_misreports_value_error :
  App.validate_query App.DANGEROUS_SQL "SELECT 1" = inr tt /\
  App.execute_query encoding_driver App.DANGEROUS_SQL "db" "SELECT 1"
  = (mk_frame
       [EConnect; ECursor; EExecute "SET statement_timeout = 3000" [];
        EExecute "SELECT 1 LIMIT 1000" []; ECloseCursor; ECloseConn]
       true true,
     inr "Blocked: codec can't encode character") /\
  Sqlserv.validate_query Sqlserv.DANGEROUS_SQL "SELECT 1" = inr tt /\
  Sqlserv.execute_query encoding_driver Sqlserv.DANGEROUS_SQL "SELECT 1"
  = (mk_frame
       [EConnect; ECursor; EExecute "SET LOCK_TIMEOUT 30000" [];
        EExecute "SELECT TOP 1000 1" []; ECloseCursor; ECloseConn]
       true true,
     inr "Blocked: codec can't encode character") /\
  Sqlserv.view_table encoding_driver "dbo.t"
  = (mk_frame
       [EConnect; ECursor; EExecute "SELECT TOP 10 * FROM [dbo].[t]" [];
        ELog "view_table failed"; ECloseCursor; ECloseConn]
       true true,
     inr "Internal error: codec can't encode character") /\
  (forall d order db_name query e,
     App.validate_query order query = inr tt ->
     snd (App.execute_query_body d order db_name query frame0) = inl e ->
     exn_is_ValueError e = true ->
     answers d (App.execute_query d order db_name query)
       (fun text => text = "Blocked: " ++ exn_str e) /\
     logged (trace (fst (App.execute_query d order db_name query))) = []) /\
  (forall d order query e,
     Sqlserv.validate_query order query = inr tt ->
     snd (Sqlserv.execute_query_body d order query frame0) = inl e ->
     exn_is_ValueError e = true ->
     answers d (Sqlserv.execute_query d order query)
       (fun text => text = "Blocked: " ++ exn_str e) /\
     logged (trace (fst (Sqlserv.execute_query d order query))) = []) /\
  App.execute_query closing_driver App.DANGEROUS_SQL "db" "SELECT 1"
  = (mk_frame
       [EConnect; ECursor; EExecute "SET statement_timeout = 3000" [];
        EExecute "SELECT 1 LIMIT 1000" []; EFetchall; ECloseCursor]
       true true,
     inl (mk_exn false "cursor already closed")) /\
  Sqlserv.execute_query closing_driver Sqlserv.DANGEROUS_SQL "SELECT 1"
  = (mk_frame
       [EConnect; ECursor; EExecute "SET LOCK_TIMEOUT 30000" [];
        EExecute "SELECT TOP 1000 1" []; EFetchall; ECloseCursor]
       true true,
     inl (mk_exn false "cursor already closed")).
Proof.
  repeat apply conj; try reflexivity.
  - exact value_error_blocked_pg.
  - exact value_error_blocked_tsql.
Qed.

Lemma execute_query_misreports_value_error_witness :
  App.validate_query App.DANGEROUS_SQL "SELECT 1" = inr tt /\
  snd (App.execute_query_body encoding_driver App.DANGEROUS_SQL "db"
         "SELECT 1" frame0)
  = inl (UnicodeEncodeError "codec can't encode character") /\
  exn_is_ValueError (UnicodeEncodeError "codec can't encode character")
  = true /\
  answers encoding_driver
    (App.execute_query encoding_driver App.DANGEROUS_SQL "db" "SELECT 1")
    (fun text => text = "Blocked: codec can't encode character") /\
  logged (trace (fst (App.execute_query encoding_driver App.DANGEROUS_SQL
                        "db" "SELECT 1"))) = [].
Proof.
  split; [reflexivity|]. split; [reflexivity|]. split; [reflexivity|].
  pose proof execute_query_misreports_value_error
    as (_ & _ & _ & _ & _ & Hpg & _).
  exact (Hpg encoding_driver App.DANGEROUS_SQL "db" "SELECT 1"
           (UnicodeEncodeError "codec can't encode character")
           eq_refl eq_refl eq_refl).
Defined.

(** C6.  On the [execute_query] path the statements passed to the driver
    are, in this order, the timeout directive and the normalised query.
    A statement is executed only on a query the validator accepted,
    after [connect] and [cursor] have returned: the directive as the
    third call, the query as the fourth, right after the directive.  On
    an accepted query the directive is issued as soon as [connect] and
    [cursor] have returned, and the query as soon as the directive has.
    On Postgres the directive sets a statement timeout of 3000 ms.  On
    SQL Server it is [SET LOCK_TIMEOUT 30000]: a bound of 30000 ms on the
    wait for a lock, and no statement timeout. *)
Theorem timeout_directive_precedes_query (d : driver)
  (order_pg order_ts : list string) (db_name query : string) :
  let f_pg := fst (App.execute_query d order_pg db_name query) in
  let f_ts := fst (Sqlserv.execute_query d order_ts query) in
  (forall n sql ps,
     nth_error (trace f_pg) n = Some (EExecute sql ps) ->
     App.validate_query order_pg query = inr tt /\
     drv_connect d [] = None /\ drv_cursor d [EConnect] = None /\ ps = [] /\
     ((n = 2 /\ sql = "SET statement_timeout = 3000" /\
       firstn 2 (trace f_pg) = [EConnect; ECursor]) \/
      (n = 3 /\ sql = App.enforce_limit query /\
       firstn 3 (trace f_pg)
       = [EConnect; ECursor; EExecute "SET statement_timeout = 3000" []])))
  /\
  (App.validate_query order_pg query = inr tt ->
   drv_connect d [] = None -> drv_cursor d [EConnect] = None ->
   nth_error (trace f_pg) 2
   = Some (EExecute "SET statement_timeout = 3000" []) /\
   (drv_execute d [EConnect; ECursor] "SET statement_timeout = 3000" []
    = None ->
    nth_error (trace f_pg) 3 = Some (EExecute (App.enforce_limit query) [])))
  /\
  "SET statement_timeout = 3000"
  = Spec.directive_of Spec.StatementTimeout (3 * 1000)
  /\
  (forall n sql ps,
     nth_error (trace f_ts) n = Some (EExecute sql ps) ->
     Sqlserv.validate_query order_ts query = inr tt /\
     drv_connect d [] = None /\ drv_cursor d [EConnect] = None /\ ps = [] /\
     ((n = 2 /\ sql = "SET LOCK_TIMEOUT 30000" /\
       firstn 2 (trace f_ts) = [EConnect; ECursor]) \/
      (n = 3 /\ sql = Sqlserv.enforce_limit query /\
       firstn 3 (trace f_ts)
       = [EConnect; ECursor; EExecute "SET LOCK_TIMEOUT 30000" []])))
  /\
  (Sqlserv.validate_query order_ts query = inr tt ->
   drv_connect d [] = None -> drv_cursor d [EConnect] = None ->
   nth_error (trace f_ts) 2 = Some (EExecute "SET LOCK_TIMEOUT 30000" []) /\
   (drv_execute d [EConnect; ECursor] "SET LOCK_TIMEOUT 30000" [] = None ->
    nth_error (trace f_ts) 3
    = Some (EExecute (Sqlserv.enforce_limit query) [])))
  /\
  "SET LOCK_TIMEOUT 30000" = Spec.directive_of Spec.LockTimeout (30 * 1000)
  /\
  (forall ms,
     "SET LOCK_TIMEOUT 30000" <> Spec.directive_of Spec.StatementTimeout ms).
Proof.
  cbv zeta. repeat apply conj; try reflexivity.
  - unfold_run. case_run; intros n sql ps H; nth_cases H;
      injection H as <- <-; auto 10.
  - unfold_run. case_run; intros Hv' Hc Hk; try discriminate;
      (split; [reflexivity | intros He; try discriminate; reflexivity]).
  - unfold_run. case_run; intros n sql ps H; nth_cases H;
      injection H as <- <-; auto 10.
  - unfold_run. case_run; intros Hv' Hc Hk; try discriminate;
      (split; [reflexivity | intros He; try discriminate; reflexivity]).
  - intros ms H. cbn in H. discriminate H.
Qed.

Lemma timeout_directive_precedes_query_witness :
  (App.validate_query App.DANGEROUS_SQL "SELECT name FROM employees"
   = inr tt /\
   nth_error
     (trace (fst (App.execute_query quiet_driver App.DANGEROUS_SQL "db"
                    "SELECT name FROM employees"))) 2
   = Some (EExecute "SET statement_timeout = 3000" []) /\
   nth_error
     (trace (fst (App.execute_query quiet_driver App.DANGEROUS_SQL "db"
                    "SELECT name FROM employees"))) 3
   = Some (EExecute "SELECT name FROM employees LIMIT 1000" [])) /\
  (Sqlserv.validate_query Sqlserv.DANGEROUS_SQL "SELECT name FROM employees"
   = inr tt /\
   nth_error
     (trace (fst (Sqlserv.execute_query quiet_driver Sqlserv.DANGEROUS_SQL
                    "SELECT name FROM employees"))) 2
   = Some (EExecute "SET LOCK_TIMEOUT 30000" []) /\
   nth_error
     (trace (fst (Sqlserv.execute_query quiet_driver Sqlserv.DANGEROUS_SQL
                    "SELECT name FROM employees"))) 3
   = Some (EExecute "SELECT TOP 1000 name FROM employees" [])).
Proof.
  pose proof (timeout_directive_precedes_query quiet_driver
                App.DANGEROUS_SQL Sqlserv.DANGEROUS_SQL "db"
                "SELECT name FROM employees")
    as (_ & Hpg & _ & _ & Hts & _).
  destruct (Hpg eq_refl eq_refl eq_refl) as [Hpg2 Hpg3].
  destruct (Hts eq_refl eq_refl eq_refl) as [Hts2 Hts3].
  split; (split; [reflexivity|]).
  - split; [exact Hpg2 | exact (Hpg3 eq_refl)].
  - split; [exact Hts2 | exact (Hts3 eq_refl)].
Defined.

(** [split('.', 1)] cuts a text at its first dot. *)
Lemma split_once_dot (table : string) :
  Py.contains "." table = true ->
  exists schema name,
    Py.split_once "."%char table = Some (schema, name) /\
    table = schema ++ "." ++ name /\
    Py.contains "." schema = false.
Proof.
  induction table as [|c t IH]; [discriminate|].
  cbn [Py.contains Py.startswith Py.split_once].
  rewrite andb_true_r, (Ascii.eqb_sym "."%char c).
  destruct (Ascii.eqb c "."%char) eqn:Hc.
  - intros _. apply Ascii.eqb_eq in Hc. subst c.
    now exists "", t.
  - rewrite orb_false_l. intros H.
    destruct (IH H) as (schema & name & Hs & Heq & Hno).
    exists (String c schema), name. rewrite Hs. repeat split.
    + simpl. f_equal. exact Heq.
    + cbn [Py.contains Py.startswith].
      now rewrite andb_true_r, (Ascii.eqb_sym "."%char c), Hc, Hno.
Qed.

(** The statement [view_table] builds, by the shape of the name. *)
Lemma build_query_shape (table : string) :
  (Py.contains "." table = true ->
   exists schema name,
     table = schema ++ "." ++ name /\
     Py.contains "." schema = false /\
     Sqlserv.build_query table
     = inr ("SELECT TOP 10 * FROM [" ++ schema ++ "].[" ++ name ++ "]"))
  /\
  (Py.contains "." table = false ->
   Sqlserv.build_query table = inr ("SELECT TOP 10 * FROM [" ++ table ++ "]")
   /\
   Sqlserv.build_query ("SalesLT." ++ table)
   = inr ("SELECT TOP 10 * FROM [SalesLT].[" ++ table ++ "]")).
Proof.
  unfold Sqlserv.build_query. split; intros H.
  - destruct (split_once_dot table H) as (schema & name & Hs & Heq & Hno).
    exists schema, name. now rewrite H, Hs.
  - rewrite H. split; reflexivity.
Qed.

(** C10.  The statements [view_table] of the SQL Server backend passes to
    the driver, for every table argument: for an argument without a dot,
    first the catalog lookup with the argument as its parameter; then the
    query, whose identifiers are bracketed.  The query is
    [SELECT TOP 10 * FROM [schema].[name]] for an argument with a dot,
    cut at its first dot; [SELECT TOP 10 * FROM [SalesLT].[table]] for an
    argument without a dot when the lookup counts a table of that name in
    SalesLT; and [SELECT TOP 10 * FROM [table]] otherwise.  The query is
    issued whenever the calls before it return. *)
Theorem view_table_bracketed_query (d : driver) (table : string) :
  let f := fst (Sqlserv.view_table d table) in
  let lookup :=
    drv_fetchone d [EConnect; ECursor;
                    EExecute Sqlserv.CATALOG_LOOKUP [table]] in
  let found := exists z rest,
    lookup = inr (Some (VInt z :: rest)) /\ (0 < z)%Z in
  (forall n sql ps,
     nth_error (trace f) n = Some (EExecute sql ps) ->
     (Py.contains "." table = false /\ n = 2 /\
      sql = Sqlserv.CATALOG_LOOKUP /\ ps = [table])
     \/
     (ps = [] /\
      ((exists schema name,
          table = schema ++ "." ++ name /\
          Py.contains "." schema = false /\ n = 2 /\
          sql = "SELECT TOP 10 * FROM [" ++ schema ++ "].[" ++ name ++ "]")
       \/
       (Py.contains "." table = false /\ found /\ n = 4 /\
        sql = "SELECT TOP 10 * FROM [SalesLT].[" ++ table ++ "]")
       \/
       (Py.contains "." table = false /\ ~ found /\ n = 4 /\
        sql = "SELECT TOP 10 * FROM [" ++ table ++ "]"))))
  /\
  (drv_connect d [] = None -> drv_cursor d [EConnect] = None ->
   Py.contains "." table = true ->
   exists sql, nth_error (trace f) 2 = Some (EExecute sql []))
  /\
  (drv_connect d [] = None -> drv_cursor d [EConnect] = None ->
   Py.contains "." table = false ->
   drv_execute d [EConnect; ECursor] Sqlserv.CATALOG_LOOKUP [table] = None ->
   forall z rest, lookup = inr (Some (VInt z :: rest)) ->
   exists sql, nth_error (trace f) 4 = Some (EExecute sql [])).
Proof.
  cbv zeta. destruct (build_query_shape table) as [Hdot Hplain].
  destruct (Py.contains "." table) eqn:Hc.
  - destruct (Hdot eq_refl) as (schema & name & Heq & Hno & Hq).
    clear Hdot Hplain.
    repeat apply conj; [| |discriminate].
    + unfold_run. rewrite Hc. simpl. case_run; rewrite ?Hq; simpl;
        case_run; intros n sql ps H; nth_cases H;
        injection H as <- <-; right; split; trivial; left;
        exists schema, name; auto.
    + intros Hconn Hcur _. unfold_run.
      rewrite Hconn; simpl. rewrite Hcur; simpl. rewrite Hc; simpl.
      rewrite Hq; simpl. case_run; eexists; reflexivity.
  - destruct (Hplain eq_refl) as [Hq Hqs]. clear Hdot Hplain.
    repeat apply conj; [|discriminate|].
    + unfold_run. rewrite Hc. simpl.
      case_run; rewrite ?Hq, ?Hqs; simpl; case_run;
        intros n sql ps H; nth_cases H; injection H as <- <-; auto;
        right; split; trivial; right.
      all: try (left; repeat split; trivial; eexists; eexists; split;
                [reflexivity | now apply Z.ltb_lt]).
      all: right; repeat split; trivial; intros (z' & rest' & Hz & Hlt);
        injection Hz as -> _; apply Z.ltb_lt in Hlt; congruence.
    + intros Hconn Hcur _ Hexec z rest Hone. unfold_run.
      rewrite Hconn; simpl. rewrite Hcur; simpl. rewrite Hc; simpl.
      rewrite Hexec; simpl. rewrite Hone; simpl.
      destruct (0 <? z)%Z; simpl; rewrite ?Hq, ?Hqs; simpl;
        case_run; eexists; reflexivity.
Qed.

Lemma view_table_bracketed_query_witness :
  Py.contains "." "Customer" = false /\
  drv_fetchone saleslt_driver
    [EConnect; ECursor; EExecute Sqlserv.CATALOG_LOOKUP ["Customer"]]
  = inr (Some [VInt 1]) /\
  exists sql,
    nth_error (trace (fst (Sqlserv.view_table saleslt_driver "Customer"))) 4
    = Some (EExecute sql []).
Proof.
  split; [reflexivity | split; [reflexivity|]].
  exact (proj2 (proj2 (view_table_bracketed_query saleslt_driver "Customer"))
               eq_refl eq_refl eq_refl eq_refl 1%Z [] eq_refl).
Defined.

End Execution.

(** ** The [finally] block *)

Section Finally.

Lemma before_close_app (t u : list event) :
  before_close (t ++ u) = (before_close t ++ before_close u)%list.
Proof. apply filter_app. Qed.

Lemma logged_app (t u : list event) :
  logged (t ++ u) = (logged t ++ logged u)%list.
Proof.
  induction t as [|e t IH]; [reflexivity|].
  destruct e; cbn; now rewrite IH.
Qed.

Lemma statements_app (t u : list event) :
  statements (t ++ u) = (statements t ++ statements u)%list.
Proof.
  induction t as [|e t IH]; [reflexivity|].
  destruct e; cbn; now rewrite IH.
Qed.

Lemma executed_app (t u : list event) :
  executed (t ++ u) = (executed t ++ executed u)%list.
Proof.
  induction t as [|e t IH]; [reflexivity|].
  destruct e; cbn; now rewrite IH.
Qed.

(** What the block appends to the trace: closing calls only. *)
Lemma leave_trace (d : driver) (f : frame) (text : string) :
  exists cs,
    trace (fst (leave d f text)) = (trace f ++ cs)%list /\
    (cs = [] \/ cs = [ECloseCursor] \/ cs = [ECloseConn] \/
     cs = [ECloseCursor; ECloseConn]).
Proof.
  destruct f as [t cb kb].
  unfold leave, finally_close, close_conn, emit.
  cbn [trace conn_bound cur_bound].
  destruct kb; [destruct (drv_close_cursor d t)|];
    cbn [trace conn_bound cur_bound fst snd];
    try destruct cb;
    try match goal with
        | |- context [drv_close_conn ?d ?h] => destruct (drv_close_conn d h)
        end;
    cbn [trace conn_bound cur_bound fst snd]; rewrite <- ?app_assoc;
    eexists; (split; [reflexivity || (symmetry; apply app_nil_r) | cbn; auto]).
Qed.

(** What the block returns: the text, or the exception of a closing
    call. *)
Lemma leave_snd (d : driver) (f : frame) (text : string) :
  snd (leave d f text) = inr text \/ exists e, snd (leave d f text) = inl e.
Proof.
  unfold leave. destruct (finally_close d f) as [f' [e|]]; cbn; eauto.
Qed.

Lemma leave_nonempty (d : driver) (f : frame) (text : string) :
  text <> "" -> snd (leave d f text) <> inr "".
Proof.
  intros Ht. destruct (leave_snd d f text) as [-> | [e ->]]; congruence.
Qed.

Lemma leave_logged (d : driver) (f : frame) (text : string) :
  logged (trace (fst (leave d f text))) = logged (trace f).
Proof.
  destruct (leave_trace d f text) as (cs & -> & Hcs).
  rewrite logged_app.
  destruct Hcs as [-> | [-> | [-> | ->]]]; cbn; apply app_nil_r.
Qed.

Lemma leave_statements (d : driver) (f : frame) (text : string) :
  statements (trace (fst (leave d f text))) = statements (trace f).
Proof.
  destruct (leave_trace d f text) as (cs & -> & Hcs).
  rewrite statements_app.
  destruct Hcs as [-> | [-> | [-> | ->]]]; cbn; apply app_nil_r.
Qed.

Lemma leave_executed (d : driver) (f : frame) (text : string) :
  executed (trace (fst (leave d f text))) = executed (trace f).
Proof.
  destruct (leave_trace d f text) as (cs & -> & Hcs).
  rewrite executed_app.
  destruct Hcs as [-> | [-> | [-> | ->]]]; cbn; apply app_nil_r.
Qed.

(** The block, entered with a trace that holds no closing call. *)
Lemma leave_cases (d : driver) (f : frame) (text : string) :
  before_close (trace f) = trace f ->
  let r := leave d f text in
  conn_bound (fst r) = conn_bound f /\
  cur_bound (fst r) = cur_bound f /\
  before_close (trace (fst r)) = trace f /\
  match cursor_close_answer d (fst r) with
  | Some e =>
      trace (fst r) = (trace f ++ [ECloseCursor])%list /\ snd r = inl e
  | None =>
      trace (fst r) = (trace f ++ closes f)%list /\
      match conn_close_answer d (fst r) with
      | Some e => snd r = inl e
      | None => snd r = inr text
      end
  end.
Proof.
  destruct f as [t cb kb]. cbn [trace]. intros Ht.
  unfold cursor_close_answer, conn_close_answer, closes, leave,
    finally_close, close_conn, emit.
  cbn [trace conn_bound cur_bound].
  destruct kb, cb; cbn [trace conn_bound cur_bound fst snd].
  - destruct (drv_close_cursor d t) as [e|] eqn:Hc;
      cbn [trace conn_bound cur_bound fst snd].
    + rewrite before_close_app, Ht. cbn. rewrite app_nil_r, Hc. auto.
    + destruct (drv_close_conn d (t ++ [ECloseCursor])) as [e|] eqn:Hn;
        cbn [trace conn_bound cur_bound fst snd];
        rewrite !before_close_app, Ht; cbn; rewrite !app_nil_r, Hc, Hn;
        rewrite <- app_assoc; cbn; auto.
  - destruct (drv_close_cursor d t) as [e|] eqn:Hc;
      cbn [trace conn_bound cur_bound fst snd];
      rewrite before_close_app, Ht; cbn; rewrite !app_nil_r, Hc; auto.
  - destruct (drv_close_conn d t) as [e|] eqn:Hn;
      cbn [trace conn_bound cur_bound fst snd];
      rewrite before_close_app, Ht; cbn; rewrite !app_nil_r, Hn; auto.
  - rewrite Ht, app_nil_r. auto.
Qed.

Lemma leave_released (d : driver) (f : frame) (text : string) :
  before_close (trace f) = trace f ->
  released_or_raised d (leave d f text) /\
  conn_bound (fst (leave d f text)) = conn_bound f /\
  cur_bound (fst (leave d f text)) = cur_bound f.
Proof.
  intros Ht. destruct (leave_cases d f text Ht) as (Hc & Hk & Hb & H).
  split; [|now split].
  unfold released_or_raised, released, closes.
  cbv zeta in H. rewrite Hb, Hc, Hk.
  destruct (cursor_close_answer d (fst (leave d f text))); [exact H|].
  destruct H as [H1 H2]. split; [exact H1|].
  destruct (conn_close_answer d (fst (leave d f text))); eauto.
Qed.

Lemma leave_answers (d : driver) (f : frame) (text : string)
  (P : string -> Prop) :
  before_close (trace f) = trace f ->
  P text -> answers d (leave d f text) P.
Proof.
  intros Ht HP. destruct (leave_cases d f text Ht) as (_ & _ & _ & H).
  unfold answers, close_raised. cbv zeta in H.
  destruct (cursor_close_answer d (fst (leave d f text))) as [e|].
  - destruct H as [_ ->]. now left.
  - destruct H as [_ H].
    destruct (conn_close_answer d (fst (leave d f text))) as [e|];
      rewrite H; auto.
Qed.

End Finally.

(** ** The tools as a whole *)

Ltac unfold_bodies :=
  unfold App.execute_query, App.execute_query_body,
         Sqlserv.execute_query, Sqlserv.execute_query_body,
         Sqlserv.view_table, Sqlserv.view_table_body, Sqlserv.qualify,
         App.list_databases, App.list_databases_body,
         App.list_tables, App.list_tables_body,
         App.table_schema, App.table_schema_body,
         App.view_table, App.view_table_body,
         Sqlserv.list_databases, Sqlserv.list_databases_body,
         Sqlserv.list_tables, Sqlserv.list_tables_body,
         Sqlserv.table_schema, Sqlserv.table_schema_body,
         Sqlserv.hello_sqlserver, Sqlserv.hello_sqlserver_body,
         bind, lift, ret, connect, cursor, execute, fetchall, fetchone,
         columns, log_exception, log_info, emit, frame0;
  cbn.

Ltac unfold_tools :=
  unfold_bodies; unfold leave, finally_close, close_conn; cbn.

(** One case per answer of the validator, of the driver and of the
    expressions of a body that may raise. *)
Ltac case_tools :=
  repeat
    (match goal with
     | |- context [App.validate_query ?o ?q] =>
         let H := fresh "Hv" in
         destruct (App.validate_query o q) as [?e | []] eqn:H;
         [try rewrite (validate_raises_ValueError _ _ _ H)|]
     | |- context [Sqlserv.validate_query ?o ?q] =>
         let H := fresh "Hv" in
         destruct (Sqlserv.validate_query o q) as [?e | []] eqn:H;
         [try rewrite (validate_raises_ValueError _ _ _ H)|]
     | |- context [Py.contains "." ?t] =>
         let H := fresh "Hdot" in destruct (Py.contains "." t) eqn:H
     | |- context [drv_connect ?d ?h] =>
         let H := fresh "Hconn" in destruct (drv_connect d h) eqn:H
     | |- context [drv_cursor ?d ?h] =>
         let H := fresh "Hcur" in destruct (drv_cursor d h) eqn:H
     | |- context [drv_execute ?d ?h ?s ?p] =>
         let H := fresh "Hexec" in destruct (drv_execute d h s p) eqn:H
     | |- context [drv_fetchone ?d ?h] =>
         let H := fresh "Hone" in
         destruct (drv_fetchone d h) as [?e | ?r] eqn:H
     | |- context [drv_fetchall ?d ?h] =>
         let H := fresh "Hall" in
         destruct (drv_fetchall d h) as [?e | ?rows] eqn:H
     | |- context [drv_columns ?d ?h] =>
         let H := fresh "Hcols" in destruct (drv_columns d h) eqn:H
     | |- context [Sqlserv.item0 ?r] =>
         let H := fresh "Hitem" in destruct (Sqlserv.item0 r) eqn:H
     | |- context [Sqlserv.gt_zero ?v] =>
         let H := fresh "Hgt" in destruct (Sqlserv.gt_zero v) as [?e | []] eqn:H
     | |- context [Sqlserv.first50 ?v] =>
         let H := fresh "Hver" in destruct (Sqlserv.first50 v) eqn:H
     | |- context [Sqlserv.build_query ?t] =>
         let H := fresh "Hq" in destruct (Sqlserv.build_query t) eqn:H
     | |- context [join_first_column ?r] =>
         let H := fresh "Hjoin" in destruct (join_first_column r) eqn:H
     | |- context [map_result ?f ?r] =>
         let H := fresh "Hmap" in destruct (map_result f r) eqn:H
     | |- context [is_empty ?r] =>
         let H := fresh "Hrows" in destruct (is_empty r) eqn:H
     | |- context [exn_is_ValueError ?e] =>
         let H := fresh "Hcls" in destruct (exn_is_ValueError e) eqn:H
     | |- context [drv_close_cursor ?d ?h] =>
         lazymatch h with
         | context [trace] => fail
         | _ => let H := fresh "Hclc" in destruct (drv_close_cursor d h) eqn:H
         end
     | |- context [drv_close_conn ?d ?h] =>
         lazymatch h with
         | context [trace] => fail
         | _ => let H := fresh "Hcln" in destruct (drv_close_conn d h) eqn:H
         end
     end; cbn).

(** The [finally] block stays folded while the cases of a body are
    taken; [leaves] then rewrites with what it leaves behind. *)
#[local] Arguments leave : simpl never.

Ltac leaves :=
  match goal with
  | |- context [leave ?d ?f ?text] =>
      let H := fresh "Hleave" in
      let Hc := fresh "Hconn_bound" in
      let Hk := fresh "Hcur_bound" in
      destruct (leave_released d f text eq_refl) as (H & Hc & Hk);
      rewrite ?Hc, ?Hk; cbn [conn_bound cur_bound]
  end.

Section Tools.

(** X1.  How [execute_query] leaves, on every path.  The [finally] block
    closes the cursor when one was obtained, then the connection when one
    was opened, and nothing is called afterwards; the function then
    returns a text.  The closing calls are not guarded: when
    [cur.close()] raises, [conn.close()] is never called, the connection
    stays open and the exception leaves the function; when
    [conn.close()] raises, its exception leaves the function.  A
    connection is held exactly when the validator accepted the query and
    [connect] returned, a cursor exactly when [cursor] returned too. *)
Theorem execute_query_releases (d : driver)
  (order_pg order_ts : list string) (db_name query : string) :
  let r_pg := App.execute_query d order_pg db_name query in
  let r_ts := Sqlserv.execute_query d order_ts query in
  released_or_raised d r_pg /\
  (conn_bound (fst r_pg) = true <->
   App.validate_query order_pg query = inr tt /\ drv_connect d [] = None) /\
  (cur_bound (fst r_pg) = true <->
   App.validate_query order_pg query = inr tt /\
   drv_connect d [] = None /\ drv_cursor d [EConnect] = None) /\
  released_or_raised d r_ts /\
  (conn_bound (fst r_ts) = true <->
   Sqlserv.validate_query order_ts query = inr tt /\
   drv_connect d [] = None) /\
  (cur_bound (fst r_ts) = true <->
   Sqlserv.validate_query order_ts query = inr tt /\
   drv_connect d [] = None /\ drv_cursor d [EConnect] = None).
Proof.
  cbv zeta.
  repeat apply conj; unfold_bodies; case_tools; leaves;
    try assumption; intuition congruence.
Qed.

(** X2.  How the catalog tools, [view_table] and [hello_sqlserver] leave,
    on every path: as [execute_query] does.  The cursor is closed when
    one was obtained, then the connection when one was opened, and the
    tool returns a text; a raising [cur.close()] leaves the connection
    open and its exception leaves the tool, as does that of a raising
    [conn.close()]. *)
Theorem tools_release (quote_ident : string -> string) (d : driver)
  (db_name table name : string) :
  release_invariant d [] (App.list_databases d) /\
  release_invariant d [] (App.list_tables d db_name) /\
  release_invariant d [] (App.table_schema d db_name table) /\
  release_invariant d [] (App.view_table quote_ident d db_name table) /\
  release_invariant d [] (Sqlserv.list_databases d) /\
  release_invariant d [] (Sqlserv.list_tables d) /\
  release_invariant d [] (Sqlserv.table_schema d table) /\
  release_invariant d [] (Sqlserv.view_table d table) /\
  release_invariant d [ELog ("Hello called: " ++ name)]
    (Sqlserv.hello_sqlserver d name).
Proof.
  unfold release_invariant.
  repeat apply conj; unfold_bodies; case_tools; leaves;
    try assumption; intuition congruence.
Qed.

Lemma append_nonempty_l (a b : string) : a <> "" -> a ++ b <> "".
Proof. destruct a; [congruence | discriminate]. Qed.

Lemma append_nonempty_r (a b : string) : b <> "" -> a ++ b <> "".
Proof. destruct a; [trivial | discriminate]. Qed.

Lemma join_cons_nonempty (sep x : string) (xs : list string) :
  x <> "" -> Py.join sep (x :: xs) <> "".
Proof.
  intros Hx. destruct xs; [exact Hx|].
  cbn [Py.join]. now apply append_nonempty_l.
Qed.

Lemma py_or_nonempty (x y : string) : y <> "" -> py_or x y <> "".
Proof.
  intros Hy. unfold py_or. destruct (String.eqb x "") eqn:Hx; [exact Hy|].
  now apply String.eqb_neq.
Qed.

Lemma map_result_cons {A B : Type} (f : A -> result B) (x : A)
  (xs : list A) (ys : list B) :
  map_result f (x :: xs) = inr ys ->
  exists y ys', ys = y :: ys' /\ f x = inr y /\ map_result f xs = inr ys'.
Proof.
  cbn [map_result]. destruct (f x) as [e|y]; [discriminate|].
  destruct (map_result f xs) as [e|ys']; [discriminate|].
  intros H. injection H as <-. now exists y, ys'.
Qed.

Lemma schema_line_nonempty (r : row) (l : string) :
  App.schema_line r = inr l -> l <> "".
Proof.
  unfold App.schema_line. destruct (unpack2 r) as [e|[c t]]; [discriminate|].
  intros H. injection H as <-.
  apply append_nonempty_r. discriminate.
Qed.

Lemma column_info_nonempty (r : row) (l : string) :
  Sqlserv.column_info r = inr l -> l <> "".
Proof.
  destruct r as [|c [|t [|n [|df [|ml [|x r]]]]]]; try discriminate.
  cbn [Sqlserv.column_info]. intros H. injection H as <-.
  assert (H0 : py_str c ++ ": " ++ py_str t <> "")
    by (apply append_nonempty_r; discriminate).
  destruct (truthy ml), (value_eq_str n "NO"), (truthy df);
    repeat (first [exact H0 | apply append_nonempty_l]).
Qed.

End Tools.

Section Answers.

Lemma rows_cons {A : Type} (rows : list A) :
  is_empty rows = false -> exists r rest, rows = r :: rest.
Proof. destruct rows as [|r rest]; [discriminate | now exists r, rest]. Qed.

Lemma schema_lines_nonempty (rows : list row) (ls : list string) :
  is_empty rows = false -> map_result App.schema_line rows = inr ls ->
  Py.join nl ls <> "".
Proof.
  intros Hr Hm. destruct (rows_cons _ Hr) as (r & rest & ->).
  destruct (map_result_cons _ _ _ _ Hm) as (y & ys & -> & Hy & _).
  apply join_cons_nonempty. now apply (schema_line_nonempty r).
Qed.

Lemma column_lines_nonempty (rows : list row) (ls : list string) :
  is_empty rows = false -> map_result Sqlserv.column_info rows = inr ls ->
  Py.join nl ls <> "".
Proof.
  intros Hr Hm. destruct (rows_cons _ Hr) as (r & rest & ->).
  destruct (map_result_cons _ _ _ _ Hm) as (y & ys & -> & Hy & _).
  apply join_cons_nonempty. now apply (column_info_nonempty r).
Qed.

Lemma row_lines_nonempty (d : driver) (cols : list string)
  (rows : list row) :
  is_empty rows = false -> Py.join nl (map (str_row d cols) rows) <> "".
Proof.
  intros Hr. destruct (rows_cons _ Hr) as (r & rest & ->).
  cbn [map]. apply join_cons_nonempty. discriminate.
Qed.

Ltac nonempty_answer :=
  first
    [ discriminate
    | apply py_or_nonempty; discriminate
    | apply row_lines_nonempty; assumption
    | eapply schema_lines_nonempty; eassumption
    | eapply column_lines_nonempty; eassumption ].

(** X3.  No tool answers with the empty text. *)
Theorem answers_never_empty (quote_ident : string -> string) (d : driver)
  (order_pg order_ts : list string) (db_name table name query : string) :
  snd (App.list_databases d) <> inr "" /\
  snd (App.list_tables d db_name) <> inr "" /\
  snd (App.table_schema d db_name table) <> inr "" /\
  snd (App.view_table quote_ident d db_name table) <> inr "" /\
  snd (App.execute_query d order_pg db_name query) <> inr "" /\
  snd (App.hello_postgres name) <> "" /\
  snd (Sqlserv.list_databases d) <> inr "" /\
  snd (Sqlserv.list_tables d) <> inr "" /\
  snd (Sqlserv.table_schema d table) <> inr "" /\
  snd (Sqlserv.view_table d table) <> inr "" /\
  snd (Sqlserv.execute_query d order_ts query) <> inr "" /\
  snd (Sqlserv.hello_sqlserver d name) <> inr "".
Proof.
  repeat apply conj; try discriminate;
    unfold_bodies; case_tools; apply leave_nonempty; nonempty_answer.
Qed.

End Answers.

Section Logging.

Lemma row_lines_brace (d : driver) (cols : list string) (rows : list row) :
  is_empty rows = false ->
  Py.startswith "Internal error: " (Py.join nl (map (str_row d cols) rows))
  = false.
Proof.
  destruct rows as [|r [|r' rest]]; [discriminate | reflexivity..].
Qed.

(** X4.  [execute_query] writes to the log exactly when it answers with
    an internal error: the one entry [execute_query failed]; a rejection
    by the validator and a successful run leave the log empty.  When a
    closing call raises there is no answer, and the log is as the answer
    that was due would have it: that entry or nothing. *)
Theorem execute_query_logs_internal_errors (d : driver)
  (order_pg order_ts : list string) (db_name query : string) :
  let r_pg := App.execute_query d order_pg db_name query in
  let r_ts := Sqlserv.execute_query d order_ts query in
  answers d r_pg (fun text =>
    (Py.startswith "Internal error: " text = true /\
     logged (trace (fst r_pg)) = ["execute_query failed"]) \/
    (Py.startswith "Internal error: " text = false /\
     logged (trace (fst r_pg)) = [])) /\
  (logged (trace (fst r_pg)) = ["execute_query failed"] \/
   logged (trace (fst r_pg)) = []) /\
  answers d r_ts (fun text =>
    (Py.startswith "Internal error: " text = true /\
     logged (trace (fst r_ts)) = ["execute_query failed"]) \/
    (Py.startswith "Internal error: " text = false /\
     logged (trace (fst r_ts)) = [])) /\
  (logged (trace (fst r_ts)) = ["execute_query failed"] \/
   logged (trace (fst r_ts)) = []).
Proof.
  cbv zeta. repeat apply conj; unfold_bodies; case_tools;
    rewrite leave_logged; try (apply leave_answers; [reflexivity|]);
    cbn; auto;
    right; (split; [|reflexivity]);
    try reflexivity; now apply row_lines_brace.
Qed.

End Logging.

Section Catalog.

(** X5.  The catalog tools never put their arguments into the text of a
    statement: each executes at most its one fixed statement, with the
    arguments as parameters, and does execute it once [connect] and
    [cursor] have returned. *)
Theorem catalog_statements_fixed (d : driver) (db_name table name : string) :
  let opened :=
    drv_connect d [] = None /\ drv_cursor d [EConnect] = None in
  let only (t : list event) (sql : string) (ps : list string) :=
    (opened -> statements t = [(sql, ps)]) /\
    (statements t = [] \/ statements t = [(sql, ps)]) in
  only (trace (fst (App.list_databases d))) App.LIST_DATABASES_SQL [] /\
  only (trace (fst (App.list_tables d db_name)))
       App.LIST_TABLES_SQL [db_name] /\
  only (trace (fst (App.table_schema d db_name table)))
       App.TABLE_SCHEMA_SQL [db_name; table] /\
  only (trace (fst (Sqlserv.list_databases d)))
       Sqlserv.LIST_DATABASES_SQL [] /\
  only (trace (fst (Sqlserv.list_tables d))) Sqlserv.LIST_TABLES_SQL [] /\
  only (trace (fst (Sqlserv.table_schema d table)))
       Sqlserv.TABLE_SCHEMA_SQL [table].
Proof.
  cbv zeta.
  repeat apply conj; try (intros [Hc Hk]); unfold_bodies;
    try (rewrite Hc; cbn; rewrite Hk; cbn);
    case_tools; rewrite leave_statements; cbn; auto.
Qed.

End Catalog.

Section Hello.

Lemma substring_prefix (n : nat) (s : string) :
  s = String.substring 0 n s ++ Py.drop n s.
Proof.
  revert s. induction n as [|n IH]; intros [|c s]; cbn; try reflexivity.
  now rewrite <- IH.
Qed.

Lemma substring_length (n : nat) (s : string) :
  String.length (String.substring 0 n s) = Nat.min n (String.length s).
Proof.
  revert s. induction n as [|n IH]; intros [|c s]; cbn; try reflexivity.
  now rewrite IH.
Qed.

(** X6.  [hello_sqlserver] logs the call and nothing else, and answers
    whenever the closing calls return.  Its answer is the greeting with
    the first 50 characters of the version text (the whole text when it
    is shorter), or the failure notice with the text of the exception. *)
Theorem hello_sqlserver_answer (d : driver) (name : string) :
  let r := Sqlserv.hello_sqlserver d name in
  logged (trace (fst r)) = ["Hello called: " ++ name] /\
  answers d r (fun text =>
    (exists version rest,
       drv_fetchone d [ELog ("Hello called: " ++ name); EConnect; ECursor;
                       EExecute "SELECT @@VERSION" []]
       = inr (Some (VStr version :: rest)) /\
       text = "Hello from SQL Server Explorer, " ++ name ++
              "! Connected to: " ++ String.substring 0 50 version ++ "..." /\
       String.length (String.substring 0 50 version)
       = Nat.min 50 (String.length version) /\
       version = String.substring 0 50 version ++ Py.drop 50 version)
    \/
    (exists e, text = "Hello " ++ name ++ "! Connection failed: " ++
                      exn_str e)).
Proof.
  cbv zeta. split.
  - unfold_bodies; case_tools; rewrite leave_logged; reflexivity.
  - unfold_bodies.
    case_tools; (apply leave_answers; [reflexivity|]);
      try (right; eexists; reflexivity).
    left.
    match goal with
    | H : Sqlserv.item0 ?r = inr ?v |- _ =>
        destruct r as [[|w rest]|]; try discriminate H;
        injection H as ->;
        destruct v as [| |version]; try discriminate
    end.
    injection Hver as <-. exists version, rest.
    repeat split.
    + apply substring_length.
    + apply substring_prefix.
Qed.

End Hello.

Section Listing.

Lemma map_result_inr {A B : Type} (f : A -> result B) (xs : list A)
  (ys : list B) :
  map_result f xs = inr ys <-> Forall2 (fun x y => f x = inr y) xs ys.
Proof.
  revert ys. induction xs as [|x xs IH]; intros ys; cbn [map_result].
  - split.
    + intros H. injection H as <-. constructor.
    + intros H. inversion H. reflexivity.
  - split.
    + destruct (f x) as [e|y] eqn:Hx; [discriminate|].
      destruct (map_result f xs) as [e|ys'] eqn:Hm; [discriminate|].
      intros H. injection H as <-. constructor; [exact Hx|].
      now apply IH.
    + intros H. inversion H as [|x' y xs' ys' Hx Hrest]; subst.
      rewrite Hx. apply IH in Hrest. now rewrite Hrest.
Qed.

Lemma map_result_inl {A B : Type} (f : A -> result B) (xs : list A) :
  Exists (fun x => exists e, f x = inl e) xs ->
  exists e, map_result f xs = inl e.
Proof.
  induction 1 as [x xs [e He] | x xs _ [e IH]]; cbn [map_result].
  - rewrite He. now exists e.
  - destruct (f x) as [e'|y]; [now exists e'|].
    rewrite IH. now exists e.
Qed.

Lemma join_items_names (i : nat) (names : list string) :
  join_items i (map VStr names) = inr names.
Proof.
  revert i. induction names as [|n names IH]; intros i; cbn; [reflexivity|].
  now rewrite IH.
Qed.

Lemma join_items_inr (i : nat) (vs : list value) (ss : list string) :
  join_items i vs = inr ss -> vs = map VStr ss.
Proof.
  revert i ss. induction vs as [|v vs IH]; intros i ss; cbn [join_items].
  - intros H. now injection H as <-.
  - destruct v as [| |s]; try discriminate.
    destruct (join_items (S i) vs) as [e|ss'] eqn:Hj; [discriminate|].
    intros H. injection H as <-. cbn. f_equal. now apply (IH (S i)).
Qed.

Lemma join_first_column_names (rows : list row) (names : list string) :
  Forall2 names_row rows names ->
  join_first_column rows = inr (Py.join nl names).
Proof.
  intros H. unfold join_first_column.
  assert (Hm : map_result row_item0 rows = inr (map VStr names)).
  { apply map_result_inr. induction H as [|r n rows names [rest ->] _ IH].
    - constructor.
    - cbn [map]. constructor; [reflexivity | exact IH]. }
  now rewrite Hm, join_items_names.
Qed.

Lemma join_first_column_inr (rows : list row) (text : string) :
  join_first_column rows = inr text ->
  exists names, Forall2 names_row rows names.
Proof.
  unfold join_first_column.
  destruct (map_result row_item0 rows) as [e|items] eqn:Hm; [discriminate|].
  destruct (join_items 0 items) as [e|ss] eqn:Hj; [discriminate|].
  intros _. exists ss. apply map_result_inr in Hm.
  apply join_items_inr in Hj. subst items.
  revert rows Hm. induction ss as [|s ss IH]; intros rows Hm;
    inversion Hm as [|r v rows' vs' Hr Hrest]; subst; constructor.
  - destruct r as [|v rest]; [discriminate|].
    injection Hr as ->. now exists rest.
  - now apply IH.
Qed.

Lemma join_first_column_nameless (rows : list row) :
  Exists nameless rows -> exists e, join_first_column rows = inl e.
Proof.
  intros Hex. destruct (join_first_column rows) as [e|text] eqn:Hj;
    [now exists e|].
  exfalso. destruct (join_first_column_inr _ _ Hj) as [names Hn].
  clear Hj. induction Hn as [|r n rows names [rest ->] _ IH].
  - inversion Hex.
  - inversion Hex as [r' rows' Hbad | r' rows' Hrest]; subst.
    + now apply (Hbad n rest).
    + now apply IH.
Qed.

Lemma join_two_nonempty (x y : string) (rest : list string) :
  Py.join nl (x :: y :: rest) <> "".
Proof.
  cbn [Py.join]. apply append_nonempty_r. discriminate.
Qed.

Lemma py_or_listing (names : list string) (sentinel : string) :
  (names = [] \/ names = [""] ->
   py_or (Py.join nl names) sentinel = sentinel) /\
  (names <> [] -> names <> [""] ->
   py_or (Py.join nl names) sentinel = Py.join nl names).
Proof.
  split.
  - intros [-> | ->]; reflexivity.
  - intros H0 H1. unfold py_or.
    destruct (String.eqb (Py.join nl names) "") eqn:He; [|reflexivity].
    exfalso. apply String.eqb_eq in He.
    destruct names as [|x [|y rest]].
    + now apply H0.
    + cbn in He. subst x. now apply H1.
    + now apply (join_two_nonempty x y rest).
Qed.

Ltac listing_run Hc Hk He Hf :=
  unfold App.LIST_DATABASES_SQL, App.LIST_TABLES_SQL, App.TABLE_SCHEMA_SQL,
         Sqlserv.LIST_DATABASES_SQL, Sqlserv.LIST_TABLES_SQL,
         Sqlserv.TABLE_SCHEMA_SQL in He, Hf;
  cbn in He, Hf;
  unfold_bodies; rewrite Hc; cbn; rewrite Hk; cbn; rewrite He; cbn;
  rewrite Hf; cbn.

(** X7.  What the listing tools answer once their calls have returned
    and [fetchall] has delivered the rows: the first fields of the rows,
    one per line, when each is a text; the sentinel when there is no row
    or the only name is the empty text; an internal error when some row
    has no first field or one that is not a text. *)
Theorem listing_tools_answer (d : driver) (db_name : string)
  (rows : list row) :
  (reaches_rows d App.LIST_DATABASES_SQL [] rows ->
   answers d (App.list_databases d)
     (listing_answer "No databases found" rows)) /\
  (reaches_rows d App.LIST_TABLES_SQL [db_name] rows ->
   answers d (App.list_tables d db_name)
     (listing_answer "No tables found" rows)) /\
  (reaches_rows d Sqlserv.LIST_DATABASES_SQL [] rows ->
   answers d (Sqlserv.list_databases d)
     (listing_answer "No user databases found" rows)) /\
  (reaches_rows d Sqlserv.LIST_TABLES_SQL [] rows ->
   answers d (Sqlserv.list_tables d)
     (listing_answer "No tables found" rows)).
Proof.
  unfold reaches_rows.
  repeat apply conj; intros (Hc & Hk & He & Hf);
    listing_run Hc Hk He Hf;
    destruct (join_first_column rows) as [e|text] eqn:Hj; cbn;
    (apply leave_answers; [reflexivity|]); split.
  all: try (intros names Hn;
            rewrite (join_first_column_names _ _ Hn) in Hj;
            first [discriminate Hj
                  | injection Hj as <-; apply py_or_listing]).
  all: intros Hbad; destruct (join_first_column_nameless _ Hbad) as [e' Hj'];
    first [reflexivity | congruence].
Qed.

End Listing.

Section Schema.

Lemma map_result_total {A B : Type} (f : A -> result B)
  (Q : A -> B -> Prop) (xs : list A) :
  Forall (fun x => exists y, f x = inr y /\ Q x y) xs ->
  exists ys, map_result f xs = inr ys /\ Forall2 Q xs ys.
Proof.
  induction 1 as [|x xs [y [Hy HQ]] _ [ys [Hm HF]]]; cbn [map_result].
  - exists []. split; [reflexivity | constructor].
  - exists (y :: ys). rewrite Hy, Hm. split; [reflexivity|].
    now constructor.
Qed.

Lemma begins_with_app (p s t : string) :
  Py.begins_with p s -> Py.begins_with p (s ++ t).
Proof.
  intros [r ->]. exists (r ++ t). apply append_assoc_s.
Qed.

Lemma begins_with_refl (p : string) : Py.begins_with p p.
Proof. exists "". symmetry. apply append_nil_r_s. Qed.

Lemma schema_line_arity (r : row) :
  (List.length r = 2 ->
   exists l, App.schema_line r = inr l /\ column_header r l) /\
  (List.length r <> 2 -> exists e, App.schema_line r = inl e).
Proof.
  unfold App.schema_line.
  destruct r as [|c [|t [|x r]]]; cbn; split; intros H;
    try discriminate; try (now elim H); try (eexists; reflexivity).
  eexists. split; [reflexivity|].
  exists c, t, []. split; [reflexivity | apply begins_with_refl].
Qed.

Lemma column_info_arity (r : row) :
  (List.length r = 5 ->
   exists l, Sqlserv.column_info r = inr l /\ column_header r l) /\
  (List.length r <> 5 -> exists e, Sqlserv.column_info r = inl e).
Proof.
  destruct r as [|c [|t [|n [|df [|ml [|x r]]]]]]; cbn; split; intros H;
    try discriminate; try (now elim H); try (eexists; reflexivity).
  eexists. split; [reflexivity|].
  exists c, t, [n; df; ml]. split; [reflexivity|].
  destruct (truthy ml), (value_eq_str n "NO"), (truthy df);
    repeat (first [apply begins_with_refl | apply begins_with_app]).
Qed.

Lemma arity_lines (arity : nat) (line : row -> result string)
  (rows : list row) :
  (forall r,
     (List.length r = arity ->
      exists l, line r = inr l /\ column_header r l) /\
     (List.length r <> arity -> exists e, line r = inl e)) ->
  (Forall (fun r => List.length r = arity) rows ->
   exists lines,
     map_result line rows = inr lines /\
     List.length lines = List.length rows /\
     Forall2 column_header rows lines) /\
  (Exists (fun r => List.length r <> arity) rows ->
   exists e, map_result line rows = inl e).
Proof.
  intros Hline. split.
  - intros Hall.
    destruct (map_result_total line column_header rows) as [ls [Hm HF]].
    { eapply Forall_impl; [|exact Hall]. intros r Hr.
      now apply (proj1 (Hline r)). }
    exists ls. repeat split; trivial.
    symmetry. eapply Forall2_length; eassumption.
  - intros Hex. apply map_result_inl.
    eapply Exists_impl; [|exact Hex]. intros r Hr.
    now apply (proj2 (Hline r)).
Qed.

Ltac schema_run Hc Hk He Hf :=
  unfold App.TABLE_SCHEMA_SQL, Sqlserv.TABLE_SCHEMA_SQL in He, Hf;
  cbn in He, Hf;
  unfold_bodies; rewrite Hc; cbn; rewrite Hk; cbn; rewrite He; cbn;
  rewrite Hf; cbn.

(** X8.  What [table_schema] answers once its calls have returned and
    [fetchall] has delivered the rows: the sentinel naming the table when
    there is no row; otherwise one line per row, each beginning with the
    column's name and type, when every row has the number of fields the
    loop unpacks (two on Postgres, five on SQL Server); and a logged
    internal error, without any line, when some row has not. *)
Theorem table_schema_answer (d : driver) (db_name table : string)
  (rows : list row) :
  (reaches_rows d App.TABLE_SCHEMA_SQL [db_name; table] rows ->
   answers d (App.table_schema d db_name table)
     (schema_answer 2 ("No schema for " ++ table) rows
        (trace (fst (App.table_schema d db_name table))))) /\
  (reaches_rows d Sqlserv.TABLE_SCHEMA_SQL [table] rows ->
   answers d (Sqlserv.table_schema d table)
     (schema_answer 5 ("No schema found for table: " ++ table) rows
        (trace (fst (Sqlserv.table_schema d table))))).
Proof.
  unfold reaches_rows, schema_answer.
  split; intros (Hc & Hk & He & Hf).
  - destruct (arity_lines 2 App.schema_line rows schema_line_arity)
      as [Hok Hbad].
    schema_run Hc Hk He Hf.
    destruct rows as [|r0 rows0]; cbn [is_empty].
    + rewrite leave_logged. apply leave_answers; [reflexivity|].
      repeat apply conj.
      * intros _. split; reflexivity.
      * intros Hne. now elim Hne.
      * intros Hex. inversion Hex.
    + destruct (map_result App.schema_line (r0 :: rows0)) as [e|ls] eqn:Hm;
        cbn -[map_result]; rewrite leave_logged;
        (apply leave_answers; [reflexivity|]); repeat apply conj;
        try discriminate.
      * intros _ Hall. destruct (Hok Hall) as (ls' & Hm' & _).
        discriminate Hm'.
      * intros _. split; reflexivity.
      * intros _ Hall. destruct (Hok Hall) as (ls' & Hm' & Hlen & HF).
        injection Hm' as <-. now exists ls.
      * intros Hex. destruct (Hbad Hex) as [e Hm']. discriminate Hm'.
  - destruct (arity_lines 5 Sqlserv.column_info rows column_info_arity)
      as [Hok Hbad].
    schema_run Hc Hk He Hf.
    destruct rows as [|r0 rows0]; cbn [is_empty].
    + rewrite leave_logged. apply leave_answers; [reflexivity|].
      repeat apply conj.
      * intros _. split; reflexivity.
      * intros Hne. now elim Hne.
      * intros Hex. inversion Hex.
    + destruct (map_result Sqlserv.column_info (r0 :: rows0)) as [e|ls] eqn:Hm;
        cbn -[map_result]; rewrite leave_logged;
        (apply leave_answers; [reflexivity|]); repeat apply conj;
        try discriminate.
      * intros _ Hall. destruct (Hok Hall) as (ls' & Hm' & _).
        discriminate Hm'.
      * intros _. split; reflexivity.
      * intros _ Hall. destruct (Hok Hall) as (ls' & Hm' & Hlen & HF).
        injection Hm' as <-. now exists ls.
      * intros Hex. destruct (Hbad Hex) as [e Hm']. discriminate Hm'.
Qed.

End Schema.

Section RowDict.

Lemma dict_set_spec (k : string) (v : value) (d : list (string * value)) :
  NoDup (map fst d) ->
  NoDup (map fst (dict_set k v d)) /\
  (forall k' v', In (k', v') (dict_set k v d) <->
                 (k' = k /\ v' = v) \/ (k' <> k /\ In (k', v') d)) /\
  List.length (dict_set k v d) <= S (List.length d).
Proof.
  induction d as [|[k0 v0] d IH]; intros Hnd.
  - cbn. repeat split.
    + constructor; [intros [] | constructor].
    + intros [H | []]. injection H as <- <-. now left.
    + intros [[-> ->] | [_ []]]. now left.
    + lia.
  - cbn [dict_set]. inversion Hnd as [|x xs Hnotin Hnd']; subst.
    destruct (String.eqb k0 k) eqn:Hk.
    + apply String.eqb_eq in Hk. subst k0. repeat split.
      * exact Hnd.
      * intros [H | H].
        -- injection H as <- <-. now left.
        -- right. split; [|now right].
           intros ->. apply Hnotin. now apply (in_map fst _ (k, v')).
      * intros [[-> ->] | [Hne [H | H]]].
        -- now left.
        -- injection H as -> _. now elim Hne.
        -- now right.
      * cbn. lia.
    + apply String.eqb_neq in Hk.
      destruct (IH Hnd') as (IHnd & IHin & IHlen). repeat split.
      * cbn. constructor; [|exact IHnd].
        intros Hin. apply in_map_iff in Hin.
        destruct Hin as [[k1 v1] [Hfst Hin]]. cbn in Hfst. subst k1.
        apply IHin in Hin. destruct Hin as [[-> _] | [_ Hin]].
        -- now elim Hk.
        -- apply Hnotin. now apply (in_map fst _ (k0, v1)).
      * intros [H | H].
        -- injection H as <- <-. right. split; [exact Hk | now left].
        -- apply IHin in H. destruct H as [H | [Hne H]];
             [now left | right; split; [exact Hne | now right]].
      * intros [[-> ->] | [Hne [H | H]]].
        -- right. apply IHin. now left.
        -- now left.
        -- right. apply IHin. right. now split.
      * cbn. lia.
Qed.

Lemma last_binding_cons (k : string) (v : value)
  (ps : list (string * value)) (k' : string) (v' : value) :
  last_binding ((k, v) :: ps) k' v' <->
  last_binding ps k' v' \/ (k' = k /\ v' = v /\ ~ In k' (map fst ps)).
Proof.
  unfold last_binding. split.
  - intros (l1 & l2 & Heq & Hlast). destruct l1 as [|x l1].
    + injection Heq as <- <- <-. now right.
    + injection Heq as <- ->. left. now exists l1, l2.
  - intros [(l1 & l2 & -> & Hlast) | (-> & -> & Hlast)].
    + now exists ((k, v) :: l1), l2.
    + now exists [], ps.
Qed.

Lemma last_binding_key (ps : list (string * value)) (k : string) (v : value) :
  last_binding ps k v -> In k (map fst ps).
Proof.
  intros (l1 & l2 & -> & _). rewrite map_app, in_app_iff. right. now left.
Qed.

Lemma fold_dict_set (ps acc : list (string * value)) :
  NoDup (map fst acc) ->
  let d := fold_left (fun d kv => dict_set (fst kv) (snd kv) d) ps acc in
  NoDup (map fst d) /\
  (forall k v, In (k, v) d <->
               last_binding ps k v \/
               (~ In k (map fst ps) /\ In (k, v) acc)) /\
  List.length d <= List.length acc + List.length ps.
Proof.
  revert acc. induction ps as [|[k0 v0] ps IH]; intros acc Hnd; cbn zeta.
  - cbn. repeat split; trivial.
    + intros H. right. now split.
    + intros [(l1 & l2 & Heq & _) | [_ H]]; [|exact H].
      destruct l1; discriminate.
    + lia.
  - cbn [fold_left fst snd].
    destruct (dict_set_spec k0 v0 acc Hnd) as (Hnd1 & Hin1 & Hlen1).
    destruct (IH _ Hnd1) as (Hnd2 & Hin2 & Hlen2). repeat split.
    + exact Hnd2.
    + intros H. apply Hin2 in H. destruct H as [H | [Hno H]].
      * left. apply last_binding_cons. now left.
      * apply Hin1 in H. destruct H as [[-> ->] | [Hne H]].
        -- left. apply last_binding_cons. now right.
        -- right. split; [|exact H]. cbn. intros [E | E]; [|now apply Hno].
           now apply Hne.
    + intros H. apply Hin2. destruct H as [H | [Hno H]].
      * apply last_binding_cons in H. destruct H as [H | (-> & -> & Hno)].
        -- now left.
        -- right. split; [exact Hno|]. apply Hin1. now left.
      * right. cbn in Hno. split; [tauto|]. apply Hin1. right.
        split; [|exact H]. intros ->. apply Hno. now left.
    + cbn [List.length]. lia.
Qed.

(** X9.  The dictionary a row is rendered from, [dict(zip(cols, r))]:
    its keys are distinct; an entry pairs a column name with the value of
    the last column of that name, so the values of earlier columns with
    the same name are not shown; and it has at most as many entries as
    there are columns and as there are values. *)
Theorem row_dict_last_column_wins (cols : list string) (r : row) :
  let d := dict_of (combine cols r) in
  NoDup (map fst d) /\
  (forall k v, In (k, v) d <-> last_binding (combine cols r) k v) /\
  List.length d <= Nat.min (List.length cols) (List.length r) /\
  (forall c v1 v2, dict_of (combine [c; c] [v1; v2]) = [(c, v2)]).
Proof.
  cbv zeta. unfold dict_of.
  destruct (fold_dict_set (combine cols r) [] (NoDup_nil _))
    as (Hnd & Hin & Hlen).
  repeat split.
  - exact Hnd.
  - intros H. apply Hin in H. destruct H as [H | [_ []]]. exact H.
  - intros H. apply Hin. now left.
  - rewrite length_combine in Hlen. exact Hlen.
  - intros c v1 v2. cbn. now rewrite String.eqb_refl.
Qed.

End RowDict.

Section Invariance.

Lemma upper_char_idem (c : ascii) :
  Py.upper_char (Py.upper_char c) = Py.upper_char c.
Proof.
  destruct c as [[] [] [] [] [] [] [] []]; reflexivity.
Qed.

Lemma upper_idem (s : string) : Py.upper (Py.upper s) = Py.upper s.
Proof.
  induction s as [|c s IH]; cbn; [reflexivity|].
  now rewrite upper_char_idem, IH.
Qed.

Lemma rstrip_by_idem (p : ascii -> bool) (s : string) :
  Py.rstrip_by p (Py.rstrip_by p s) = Py.rstrip_by p s.
Proof.
  induction s as [|c s IH]; [reflexivity|].
  cbn [Py.rstrip_by]. destruct (Py.rstrip_by p s) as [|y r] eqn:Hr.
  - destruct (p c) eqn:Hc; [reflexivity|]. cbn. now rewrite Hc.
  - cbn [Py.rstrip_by] in *. now rewrite IH.
Qed.

Lemma lstrip_by_head (p : ascii -> bool) (s : string) :
  Py.lstrip_by p s = "" \/
  exists c t, Py.lstrip_by p s = String c t /\ p c = false.
Proof.
  induction s as [|c s IH]; [now left|].
  cbn. destruct (p c) eqn:Hc; [exact IH|].
  right. now exists c, s.
Qed.

Lemma strip_idem (s : string) : Py.strip (Py.strip s) = Py.strip s.
Proof.
  unfold Py.strip.
  destruct (lstrip_by_head Py.is_space s) as [-> | (c & t & -> & Hc)];
    [reflexivity|].
  rewrite (rstrip_by_keep _ _ _ Hc). cbn [Py.lstrip_by]. rewrite Hc.
  rewrite <- (rstrip_by_keep _ _ _ Hc). apply rstrip_by_idem.
Qed.

(** X10.  The validator ignores the case of letters and the white space
    around the query: a text, its upper-case form and its trimmed form
    receive the same verdict, with the same reason, from either
    backend. *)
Theorem validate_query_ignores_case_and_padding (order : list string)
  (query : string) :
  App.validate_query order (Py.upper query)
    = App.validate_query order query /\
  App.validate_query order (Py.strip query)
    = App.validate_query order query /\
  Sqlserv.validate_query order (Py.upper query)
    = Sqlserv.validate_query order query /\
  Sqlserv.validate_query order (Py.strip query)
    = Sqlserv.validate_query order query.
Proof.
  unfold App.validate_query, Sqlserv.validate_query.
  rewrite <- upper_strip, upper_idem, strip_idem. now repeat split.
Qed.

End Invariance.

Section Unescaped.

Lemma contains_dot_app (schema name : string) :
  Py.contains "." (schema ++ "." ++ name) = true.
Proof.
  apply contains_iff. now exists schema, name.
Qed.

Lemma split_once_app (schema name : string) :
  Py.contains "." schema = false ->
  Py.split_once "."%char (schema ++ "." ++ name) = Some (schema, name).
Proof.
  induction schema as [|c s IH]; intros H; [reflexivity|].
  cbn [Py.contains Py.startswith] in H.
  rewrite andb_true_r in H. apply orb_false_iff in H. destruct H as [Hc Hs].
  change (String c s ++ "." ++ name) with (String c (s ++ "." ++ name)).
  cbn [Py.split_once]. rewrite Ascii.eqb_sym, Hc.
  now rewrite (IH Hs).
Qed.

(** X11.  [view_table] of the SQL Server backend does not consult the
    validator and does not escape its argument: for a schema without a
    dot and any name whatever, once [connect] and [cursor] have returned
    the one statement it executes is the name put between brackets as it
    is.  A name that closes the bracket therefore carries the text after
    it into the statement. *)
Theorem view_table_does_not_escape (d : driver) (schema name : string) :
  Py.contains "." schema = false ->
  drv_connect d [] = None ->
  drv_cursor d [EConnect] = None ->
  statements (trace (fst (Sqlserv.view_table d (schema ++ "." ++ name))))
  = [("SELECT TOP 10 * FROM [" ++ schema ++ "].[" ++ name ++ "]", [])].
Proof.
  intros Hs Hc Hk.
  assert (Hdot := contains_dot_app schema name).
  assert (Hq : Sqlserv.build_query (schema ++ "." ++ name)
               = inr ("SELECT TOP 10 * FROM [" ++ schema ++ "].[" ++
                      name ++ "]")).
  { unfold Sqlserv.build_query.
    now rewrite Hdot, (split_once_app _ _ Hs). }
  remember (schema ++ "." ++ name) as table eqn:Ht.
  remember ("SELECT TOP 10 * FROM [" ++ schema ++ "].[" ++ name ++ "]")
    as sql eqn:Hsql.
  unfold_tools. rewrite Hc. cbn. rewrite Hk. cbn. rewrite Hdot. cbn.
  rewrite Hq. cbn. case_tools; reflexivity.
Qed.

Lemma view_table_does_not_escape_witness :
  Py.contains "." "dbo" = false /\
  drv_connect quiet_driver [] = None /\
  drv_cursor quiet_driver [EConnect] = None /\
  statements
    (trace (fst (Sqlserv.view_table quiet_driver
                   ("dbo" ++ "." ++ "t]; DROP TABLE users; --"))))
  = [("SELECT TOP 10 * FROM [dbo].[t]; DROP TABLE users; --]", [])].
Proof.
  repeat (split; [reflexivity|]).
  exact (view_table_does_not_escape quiet_driver "dbo"
           "t]; DROP TABLE users; --" eq_refl eq_refl eq_refl).
Defined.

End Unescaped.

Section Composition.

(** *** Occurrences across a separating character *)

Lemma startswith_before_char (w x : string) (c : ascii) (y : string) :
  Py.contains (String c "") w = false ->
  Py.startswith w (x ++ String c y) = true ->
  Py.startswith w x = true.
Proof.
  revert x. induction w as [|a w IH]; intros x Hc Hs; [reflexivity|].
  cbn [Py.contains Py.startswith] in Hc.
  rewrite andb_true_r in Hc. apply orb_false_iff in Hc.
  destruct Hc as [Hac Hw].
  destruct x as [|d x]; cbn [append Py.startswith] in *.
  - apply andb_true_iff in Hs. destruct Hs as [Hs _].
    rewrite Ascii.eqb_sym in Hs. congruence.
  - apply andb_true_iff in Hs. destruct Hs as [Hs1 Hs2].
    rewrite Hs1. cbn. now apply IH.
Qed.

Lemma occurs_nil_inv (w : string) : Py.occurs w "" -> w = "".
Proof.
  intros [a [b H]]. destruct a; [|discriminate].
  destruct w; [reflexivity | discriminate].
Qed.

Lemma occurs_prepend (w a s : string) :
  Py.occurs w s -> Py.occurs w (a ++ s).
Proof.
  intros [x [y ->]]. exists (a ++ x), y. now rewrite append_assoc_s.
Qed.

Lemma occurs_append (w s b : string) :
  Py.occurs w s -> Py.occurs w (s ++ b).
Proof.
  intros [x [y ->]]. exists x, (y ++ b). now rewrite !append_assoc_s.
Qed.

(** A word without the character [c] that occurs in [x ++ c ++ y] occurs
    in [x] or in [y]. *)
Lemma occurs_split_char (w x : string) (c : ascii) (y : string) :
  Py.contains (String c "") w = false ->
  Py.occurs w (x ++ String c y) ->
  Py.occurs w x \/ Py.occurs w y.
Proof.
  intros Hc Ho. apply contains_iff in Ho.
  induction x as [|d x IH].
  - cbn [append Py.contains] in Ho. apply orb_true_iff in Ho.
    destruct Ho as [Hs | Hy].
    + left. apply contains_iff.
      apply (startswith_before_char w "" c y Hc) in Hs.
      destruct w; [reflexivity | discriminate].
    + right. now apply contains_iff.
  - change (String d x ++ String c y) with (String d (x ++ String c y)) in Ho.
    cbn [Py.contains] in Ho. apply orb_true_iff in Ho.
    destruct Ho as [Hs | Hrest].
    + left. apply contains_iff. cbn [Py.contains].
      apply orb_true_iff. left.
      exact (startswith_before_char w (String d x) c y Hc Hs).
    + destruct (IH Hrest) as [H | H]; [left | now right].
      now apply (occurs_prepend w (String d "") x).
Qed.

(** *** Trimming yields a part of the text *)

Lemma lstrip_by_decomp (p : ascii -> bool) (s : string) :
  exists lead,
    s = lead ++ Py.lstrip_by p s /\
    forallb p (list_ascii_of_string lead) = true.
Proof.
  induction s as [|c s (lead & Heq & Hall)].
  - now exists "".
  - cbn [Py.lstrip_by]. destruct (p c) eqn:Hc.
    + exists (String c lead). cbn. rewrite Hc, Hall. now rewrite <- Heq.
    + now exists "".
Qed.

Lemma lstrip_by_skip (p : ascii -> bool) (lead x : string) :
  forallb p (list_ascii_of_string lead) = true ->
  Py.lstrip_by p (lead ++ x) = Py.lstrip_by p x.
Proof.
  induction lead as [|c lead IH]; cbn; [reflexivity|].
  intros H. apply andb_true_iff in H. destruct H as [Hc Hl].
  rewrite Hc. now apply IH.
Qed.

Lemma occurs_of_strip (w s : string) :
  Py.occurs w (Py.upper (Py.strip s)) -> Py.occurs w (Py.upper s).
Proof.
  intros H. unfold Py.strip in H.
  destruct (lstrip_by_decomp Py.is_space s) as (lead & Heq & _).
  destruct (rstrip_by_decomp Py.is_space (Py.lstrip_by Py.is_space s))
    as (tail & Ht & _).
  rewrite Heq, Ht, !upper_app.
  now apply occurs_prepend, occurs_append.
Qed.

(** *** The prefix of an accepted text *)

Lemma startswith_upper_split (P L : string) :
  Py.startswith P (Py.upper L) = true ->
  exists p rest, L = p ++ rest /\ Py.upper p = P.
Proof.
  revert L. induction P as [|a P IH]; intros L H.
  - now exists "", L.
  - destruct L as [|c L]; [discriminate|].
    cbn [Py.upper Py.startswith] in H. apply andb_true_iff in H.
    destruct H as [Hc HP]. apply Ascii.eqb_eq in Hc.
    destruct (IH L HP) as (p & rest & -> & Hp).
    exists (String c p), rest. cbn. now rewrite <- Hc, Hp.
Qed.

Lemma last_char_upper (s : string) :
  last_char (Py.upper s) = option_map Py.upper_char (last_char s).
Proof.
  induction s as [|c s IH]; [reflexivity|].
  destruct s as [|d s]; [reflexivity|]. exact IH.
Qed.

Lemma allowed_prefixes_plain (P : string) :
  In P ALLOWED_PREFIXES -> plain_prefix P.
Proof.
  intros H. cbn in H.
  repeat (destruct H as [<- | H];
          [do 3 eexists; repeat split; reflexivity|]).
  contradiction.
Qed.

(** A text whose upper-case form is a plain prefix. *)
Lemma plain_prefix_text (P p : string) :
  plain_prefix P -> Py.upper p = P ->
  exists d0 pt p0 dl,
    p = String d0 pt /\ p = p0 ++ String dl "" /\
    Py.is_space d0 = false /\ Py.is_space dl = false /\
    Ascii.eqb dl ";"%char = false /\
    Py.contains "S" (Py.upper pt) = false.
Proof.
  intros (c0 & Pt & cl & HP & Hlast & Hs0 & Hsl & Hsemi & HS) Hup.
  destruct p as [|d0 pt]; [rewrite HP in Hup; discriminate|].
  rewrite <- Hup, last_char_upper in Hlast.
  destruct (last_char (String d0 pt)) as [dl|] eqn:Hl; [|discriminate].
  cbn in Hlast. injection Hlast as Hdl.
  destruct (last_char_app _ _ Hl) as [p0 Hp0].
  rewrite HP in Hup. cbn in Hup. injection Hup as Hd0 Hpt.
  exists d0, pt, p0, dl. repeat split; trivial.
  - rewrite <- is_space_upper_char. now rewrite Hd0.
  - rewrite <- is_space_upper_char. now rewrite Hdl.
  - destruct (Ascii.eqb dl ";"%char) eqn:E; [|reflexivity].
    apply Ascii.eqb_eq in E. subst dl. cbn in Hdl. subst cl. discriminate.
  - now rewrite Hpt.
Qed.

(** The prefix test of the validator, on the text without its leading
    white space. *)
Lemma accepted_prefix_split (s : string) :
  Py.startswith_any ALLOWED_PREFIXES (Py.upper (Py.strip s)) = true ->
  exists P p rest,
    In P ALLOWED_PREFIXES /\ Py.lstrip_by Py.is_space s = p ++ rest /\
    Py.upper p = P.
Proof.
  intros H. apply startswith_any_iff in H. destruct H as (P & HP & [r Hr]).
  unfold Py.strip in Hr.
  destruct (rstrip_by_decomp Py.is_space (Py.lstrip_by Py.is_space s))
    as (tail & Ht & _).
  assert (Hs : Py.startswith P (Py.upper (Py.lstrip_by Py.is_space s)) = true).
  { apply startswith_iff. rewrite Ht, upper_app, Hr.
    exists (r ++ Py.upper tail). apply append_assoc_s. }
  destruct (startswith_upper_split _ _ Hs) as (p & rest & Hl & Hp).
  now exists P, p, rest.
Qed.

Lemma prefix_accepted (s P p rest : string) :
  In P ALLOWED_PREFIXES -> Py.upper p = P ->
  Py.lstrip_by Py.is_space s = p ++ rest ->
  Py.startswith_any ALLOWED_PREFIXES (Py.upper (Py.strip s)) = true.
Proof.
  intros HP Hp Hl. apply startswith_any_iff. exists P. split; [exact HP|].
  destruct (plain_prefix_text P p (allowed_prefixes_plain P HP) Hp)
    as (d0 & pt & p0 & dl & _ & Hp0 & _ & Hdl & _ & _).
  unfold Py.strip. rewrite Hl, Hp0, append_assoc_s. cbn [append].
  rewrite (rstrip_by_app _ _ _ _ Hdl).
  exists (Py.upper (Py.rstrip_by Py.is_space rest)).
  rewrite <- Hp, Hp0, !upper_app. cbn. now rewrite append_assoc_s.
Qed.

(** *** The blocked keywords and the inserted text *)

Lemma keyword_facts (w : string) :
  In w App.DANGEROUS_SQL \/ In w Sqlserv.DANGEROUS_SQL ->
  solid w /\
  Py.contains " " w = false /\ Py.contains "1" w = false /\
  Py.contains "0" w = false /\
  Py.contains w "LIMIT 1000" = false /\ Py.contains w "TOP" = false /\
  Py.contains w "" = false.
Proof.
  intros [H | H]; cbn in H;
    repeat (destruct H as [<- | H];
            [split; [apply solidb_solid; reflexivity
                    | repeat split; reflexivity]|]);
    contradiction.
Qed.

Lemma occurs_to_strip (w q : string) :
  solid w -> Py.occurs w (Py.upper q) -> Py.occurs w (Py.upper (Py.strip q)).
Proof.
  intros Hw H. rewrite upper_strip. now apply occurs_strip.
Qed.

Lemma not_occurs (w s : string) :
  Py.contains w s = false -> Py.occurs w s -> False.
Proof. intros H Ho. apply contains_iff in Ho. congruence. Qed.

Lemma enforce_limit_pg_no_new_keyword (w q : string) :
  In w App.DANGEROUS_SQL ->
  Py.occurs w (Py.upper (Py.strip (App.enforce_limit q))) ->
  Py.occurs w (Py.upper (Py.strip q)).
Proof.
  intros Hin Ho.
  destruct (keyword_facts w (or_introl Hin))
    as (Hsolid & Hsp & _ & _ & Hcap & _ & _).
  apply occurs_to_strip; [exact Hsolid|].
  apply occurs_of_strip in Ho. unfold App.enforce_limit in Ho.
  destruct (negb (Py.contains "LIMIT" (Py.upper q))); [|exact Ho].
  destruct (rstrip_by_decomp (fun c => Ascii.eqb c ";"%char) q)
    as (tail & Hq & _).
  rewrite upper_app in Ho.
  change (Py.upper (" LIMIT " ++ Py.str_of_nat App.MAX_ROWS))
    with (String " "%char "LIMIT 1000") in Ho.
  apply (occurs_split_char w _ " "%char "LIMIT 1000" Hsp) in Ho.
  destruct Ho as [Ho | Ho]; [|now elim (not_occurs _ _ Hcap Ho)].
  rewrite Hq, upper_app. now apply occurs_append.
Qed.

Lemma enforce_limit_tsql_no_new_keyword (w q : string) :
  In w Sqlserv.DANGEROUS_SQL ->
  Py.occurs w (Py.upper (Py.strip (Sqlserv.enforce_limit q))) ->
  Py.occurs w (Py.upper (Py.strip q)).
Proof.
  intros Hin Ho.
  destruct (keyword_facts w (or_intror Hin))
    as (Hsolid & Hsp & H1 & H0 & _ & Htop & Hnil).
  apply occurs_to_strip; [exact Hsolid|].
  apply occurs_of_strip in Ho. unfold Sqlserv.enforce_limit in Ho.
  cbv zeta in Ho.
  destruct (negb (Py.contains "TOP" (Py.upper q)) &&
            Py.contains "SELECT" (Py.upper q)); [|exact Ho].
  destruct (Py.contains "SELECT" q) eqn:Hs.
  2: { now rewrite (replace_first_absent _ _ _ Hs) in Ho. }
  destruct (replace_first_split "SELECT"
              ("SELECT TOP " ++ Py.str_of_nat Sqlserv.MAX_ROWS) q Hs)
    as (a & b & Hq & Hrep & _).
  rewrite Hrep in Ho. do 2 rewrite upper_app in Ho.
  assert (Heq : Py.upper a
                ++ Py.upper ("SELECT TOP " ++ Py.str_of_nat Sqlserv.MAX_ROWS)
                ++ Py.upper b
                = (Py.upper a ++ "SELECT")
                  ++ String " "%char
                       ("TOP" ++ String " "%char
                          (String "1"%char (String "0"%char
                             (String "0"%char
                                (String "0"%char (Py.upper b)))))))
    by (rewrite append_assoc_s; reflexivity).
  rewrite Heq in Ho. clear Heq.
  rewrite Hq, !upper_app.
  apply (occurs_split_char w _ " "%char _ Hsp) in Ho.
  destruct Ho as [Ho | Ho].
  { change (Py.upper "SELECT") with "SELECT".
    rewrite <- append_assoc_s. now apply occurs_append. }
  apply (occurs_split_char w "TOP" " "%char _ Hsp) in Ho.
  destruct Ho as [Ho | Ho]; [now elim (not_occurs _ _ Htop Ho)|].
  apply (occurs_split_char w "" "1"%char _ H1) in Ho.
  destruct Ho as [Ho | Ho]; [now elim (not_occurs _ _ Hnil Ho)|].
  do 3 (apply (occurs_split_char w "" "0"%char _ H0) in Ho;
        destruct Ho as [Ho | Ho]; [now elim (not_occurs _ _ Hnil Ho)|]).
  now apply occurs_prepend, occurs_prepend.
Qed.

(** *** The prefix survives the normalisation *)

Lemma enforce_limit_pg_prefix (q : string) :
  Py.startswith_any ALLOWED_PREFIXES (Py.upper (Py.strip q)) = true ->
  Py.startswith_any ALLOWED_PREFIXES
    (Py.upper (Py.strip (App.enforce_limit q))) = true.
Proof.
  intros H. unfold App.enforce_limit.
  destruct (negb (Py.contains "LIMIT" (Py.upper q))); [|exact H].
  destruct (accepted_prefix_split q H) as (P & p & rest & HP & Hl & Hp).
  destruct (plain_prefix_text P p (allowed_prefixes_plain P HP) Hp)
    as (d0 & pt & p0 & dl & Hp1 & Hp0 & Hd0 & _ & Hsemi & _).
  destruct (lstrip_by_decomp Py.is_space q) as (lead & Hq & Hlead).
  rewrite Hl in Hq.
  assert (Hq' : q = (lead ++ p0) ++ String dl rest).
  { rewrite Hq at 1. rewrite Hp0, !append_assoc_s. reflexivity. }
  apply (prefix_accepted _ P p
           (Py.rstrip_by (fun c => Ascii.eqb c ";"%char) rest
            ++ " LIMIT " ++ Py.str_of_nat App.MAX_ROWS) HP Hp).
  assert (Hbody : Py.rstrip_by (fun c => Ascii.eqb c ";"%char) q
                  = lead ++ p
                    ++ Py.rstrip_by (fun c => Ascii.eqb c ";"%char) rest).
  { rewrite Hq' at 1.
    rewrite (rstrip_by_app (fun c => Ascii.eqb c ";"%char) _ _ _ Hsemi).
    rewrite Hp0, !append_assoc_s. reflexivity. }
  rewrite Hbody, !append_assoc_s, (lstrip_by_skip _ _ _ Hlead), Hp1.
  cbn [append Py.lstrip_by]. now rewrite Hd0.
Qed.

Lemma replace_first_skip (s x new : string) :
  Py.contains "S" (Py.upper s) = false ->
  Py.replace_first "SELECT" new (s ++ x)
  = s ++ Py.replace_first "SELECT" new x.
Proof.
  induction s as [|c s IH]; intros H; [reflexivity|].
  cbn [Py.upper Py.contains Py.startswith] in H.
  rewrite andb_true_r in H. apply orb_false_iff in H. destruct H as [Hc Hs].
  change (String c s ++ x) with (String c (s ++ x)).
  cbn [Py.replace_first Py.startswith].
  assert (Hne : Ascii.eqb "S"%char c = false).
  { destruct (Ascii.eqb "S"%char c) eqn:E; [|reflexivity].
    apply Ascii.eqb_eq in E. subst c. discriminate. }
  rewrite Hne. cbn. now rewrite (IH Hs).
Qed.

Lemma spaces_no_S (lead : string) :
  forallb Py.is_space (list_ascii_of_string lead) = true ->
  Py.contains "S" (Py.upper lead) = false.
Proof.
  induction lead as [|c lead IH]; cbn [list_ascii_of_string forallb];
    [reflexivity|].
  intros H. apply andb_true_iff in H. destruct H as [Hc Hl].
  cbn [Py.upper Py.contains Py.startswith]. rewrite andb_true_r, (IH Hl).
  rewrite orb_false_r.
  destruct (Ascii.eqb "S"%char (Py.upper_char c)) eqn:E; [|reflexivity].
  apply Ascii.eqb_eq in E. rewrite <- is_space_upper_char, <- E in Hc.
  discriminate.
Qed.

Lemma enforce_limit_tsql_prefix (q : string) :
  Py.startswith_any ALLOWED_PREFIXES (Py.upper (Py.strip q)) = true ->
  Py.startswith_any ALLOWED_PREFIXES
    (Py.upper (Py.strip (Sqlserv.enforce_limit q))) = true.
Proof.
  intros H. unfold Sqlserv.enforce_limit. cbv zeta.
  destruct (negb (Py.contains "TOP" (Py.upper q)) &&
            Py.contains "SELECT" (Py.upper q)); [|exact H].
  set (new := "SELECT TOP " ++ Py.str_of_nat Sqlserv.MAX_ROWS).
  destruct (accepted_prefix_split q H) as (P & p & rest & HP & Hl & Hp).
  destruct (plain_prefix_text P p (allowed_prefixes_plain P HP) Hp)
    as (d0 & pt & p0 & dl & Hp1 & _ & Hd0 & _ & _ & HS).
  destruct (lstrip_by_decomp Py.is_space q) as (lead & Hq & Hlead).
  rewrite Hl in Hq. rewrite Hq at 1.
  rewrite (replace_first_skip lead _ new (spaces_no_S _ Hlead)).
  destruct (Py.startswith "SELECT" (p ++ rest)) eqn:Hs.
  - assert (Hr : Py.replace_first "SELECT" new (p ++ rest)
                 = "SELECT" ++ (" TOP 1000" ++ Py.drop 6 (p ++ rest))).
    { destruct (p ++ rest); cbn [Py.replace_first]; rewrite Hs; reflexivity. }
    rewrite Hr.
    apply (prefix_accepted _ "SELECT" "SELECT"
             (" TOP 1000" ++ Py.drop 6 (p ++ rest)));
      [cbn; auto | reflexivity|].
    now rewrite (lstrip_by_skip _ _ _ Hlead).
  - assert (Hr : Py.replace_first "SELECT" new (p ++ rest)
                 = p ++ Py.replace_first "SELECT" new rest).
    { rewrite Hp1 in *.
      change (String d0 pt ++ rest) with (String d0 (pt ++ rest)) in *.
      cbn [Py.replace_first]. rewrite Hs.
      now rewrite (replace_first_skip pt rest new HS). }
    rewrite Hr.
    apply (prefix_accepted _ P p (Py.replace_first "SELECT" new rest) HP Hp).
    rewrite (lstrip_by_skip _ _ _ Hlead), Hp1.
    cbn [append Py.lstrip_by]. now rewrite Hd0.
Qed.

End Composition.

Section Pipeline.

Lemma accepted_pg_normalised (order : list string) (q : string) :
  Permutation order App.DANGEROUS_SQL ->
  App.validate_query order q = inr tt ->
  App.validate_query order (App.enforce_limit q) = inr tt.
Proof.
  intros Hperm Hacc.
  apply (validate_accepts_iff order q) in Hacc. destruct Hacc as [Hp Hk].
  apply (validate_accepts_iff order). split.
  - now apply enforce_limit_pg_prefix.
  - intros w Hin. apply contains_false_iff. intros Ho.
    assert (Hd : In w App.DANGEROUS_SQL)
      by (eapply Permutation_in; eassumption).
    apply (enforce_limit_pg_no_new_keyword w q Hd) in Ho.
    apply contains_iff in Ho. rewrite (Hk w Hin) in Ho. discriminate.
Qed.

Lemma accepted_tsql_normalised (order : list string) (q : string) :
  Permutation order Sqlserv.DANGEROUS_SQL ->
  Sqlserv.validate_query order q = inr tt ->
  Sqlserv.validate_query order (Sqlserv.enforce_limit q) = inr tt.
Proof.
  intros Hperm Hacc.
  apply (validate_accepts_iff order q) in Hacc. destruct Hacc as [Hp Hk].
  apply (validate_accepts_iff order). split.
  - now apply enforce_limit_tsql_prefix.
  - intros w Hin. apply contains_false_iff. intros Ho.
    assert (Hd : In w Sqlserv.DANGEROUS_SQL)
      by (eapply Permutation_in; eassumption).
    apply (enforce_limit_tsql_no_new_keyword w q Hd) in Ho.
    apply contains_iff in Ho. rewrite (Hk w Hin) in Ho. discriminate.
Qed.

Lemma capped_pg (q : string) :
  Py.contains "LIMIT" (Py.upper (App.enforce_limit q)) = true.
Proof.
  unfold App.enforce_limit.
  destruct (Py.contains "LIMIT" (Py.upper q)) eqn:H; cbn [negb];
    [exact H | apply limit_in_capped].
Qed.

(** X12.  Normalising keeps a query acceptable: a text the validator
    accepts is still accepted after [enforce_limit], on either backend. *)
Theorem normalisation_preserves_acceptance (order_pg order_ts : list string)
  (q : string) :
  Permutation order_pg App.DANGEROUS_SQL ->
  Permutation order_ts Sqlserv.DANGEROUS_SQL ->
  (App.validate_query order_pg q = inr tt ->
   App.validate_query order_pg (App.enforce_limit q) = inr tt) /\
  (Sqlserv.validate_query order_ts q = inr tt ->
   Sqlserv.validate_query order_ts (Sqlserv.enforce_limit q) = inr tt).
Proof.
  intros Hpg Hts. split.
  - now apply accepted_pg_normalised.
  - now apply accepted_tsql_normalised.
Qed.

Lemma normalisation_preserves_acceptance_witness :
  Permutation App.DANGEROUS_SQL App.DANGEROUS_SQL /\
  Permutation Sqlserv.DANGEROUS_SQL Sqlserv.DANGEROUS_SQL /\
  App.validate_query App.DANGEROUS_SQL "  with t as (select 1) select 2;; "
    = inr tt /\
  App.validate_query App.DANGEROUS_SQL
    (App.enforce_limit "  with t as (select 1) select 2;; ") = inr tt.
Proof.
  split; [apply Permutation_refl | split; [apply Permutation_refl|]].
  split; [reflexivity|].
  exact (proj1 (normalisation_preserves_acceptance
                  App.DANGEROUS_SQL Sqlserv.DANGEROUS_SQL
                  "  with t as (select 1) select 2;; "
                  (Permutation_refl _) (Permutation_refl _)) eq_refl).
Defined.

(** X13.  The row cap in the normalised text.  On Postgres the result of
    [enforce_limit] always names LIMIT.  On SQL Server it names TOP
    exactly when the text named TOP already, in whatever case, or SELECT
    occurs in it in capitals; any other text is returned as it is. *)
Theorem normalised_text_row_cap (q : string) :
  Py.contains "LIMIT" (Py.upper (App.enforce_limit q)) = true /\
  (Py.contains "TOP" (Py.upper (Sqlserv.enforce_limit q)) = true <->
   Py.contains "TOP" (Py.upper q) = true \/ Py.contains "SELECT" q = true) /\
  (Py.contains "TOP" (Py.upper q) = false ->
   Py.contains "SELECT" q = false -> Sqlserv.enforce_limit q = q).
Proof.
  split; [apply capped_pg|].
  destruct (enforce_limit_tsql_behaviour q) as (Htop & Hnone & Hrep).
  split; [|intros _ Hs; now apply Hnone].
  destruct (Py.contains "TOP" (Py.upper q)) eqn:Ht.
  - rewrite (Htop eq_refl), Ht. tauto.
  - destruct (Py.contains "SELECT" q) eqn:Hs.
    + destruct (Hrep eq_refl eq_refl) as (a & b & _ & _ & ->).
      split; [auto|]. intros _.
      exact (top_in_capped a b).
    + rewrite (Hnone eq_refl), Ht. split; [discriminate|].
      intros [H | H]; discriminate.
Qed.

(** X14.  What reaches the driver on the [execute_query] path: every
    statement executed is the timeout directive or a text the validator
    accepts, which on Postgres names LIMIT. *)
Theorem executed_statements_are_accepted (d : driver)
  (order_pg order_ts : list string) (db_name query : string) :
  Permutation order_pg App.DANGEROUS_SQL ->
  Permutation order_ts Sqlserv.DANGEROUS_SQL ->
  (forall sql,
     In sql (executed (trace (fst (App.execute_query d order_pg db_name
                                      query)))) ->
     sql = "SET statement_timeout = 3000" \/
     (App.validate_query order_pg sql = inr tt /\
      Py.contains "LIMIT" (Py.upper sql) = true)) /\
  (forall sql,
     In sql (executed (trace (fst (Sqlserv.execute_query d order_ts
                                      query)))) ->
     sql = "SET LOCK_TIMEOUT 30000" \/
     Sqlserv.validate_query order_ts sql = inr tt).
Proof.
  intros Hpg Hts. split.
  - assert (Hacc := accepted_pg_normalised order_pg query Hpg).
    assert (Hcap := capped_pg query).
    unfold_tools. case_tools; intros sql Hin; cbn in Hin;
      repeat (destruct Hin as [<- | Hin]; auto); contradiction.
  - assert (Hacc := accepted_tsql_normalised order_ts query Hts).
    unfold_tools. case_tools; intros sql Hin; cbn in Hin;
      repeat (destruct Hin as [<- | Hin]; auto); contradiction.
Qed.

Lemma executed_statements_are_accepted_witness :
  Permutation App.DANGEROUS_SQL App.DANGEROUS_SQL /\
  Permutation Sqlserv.DANGEROUS_SQL Sqlserv.DANGEROUS_SQL /\
  In "select 1 LIMIT 1000"
     (executed (trace (fst (App.execute_query quiet_driver
                              App.DANGEROUS_SQL "db" "select 1;")))) /\
  ("select 1 LIMIT 1000" = "SET statement_timeout = 3000" \/
   (App.validate_query App.DANGEROUS_SQL "select 1 LIMIT 1000" = inr tt /\
    Py.contains "LIMIT" (Py.upper "select 1 LIMIT 1000") = true)).
Proof.
  split; [apply Permutation_refl | split; [apply Permutation_refl|]].
  split; [right; left; reflexivity|].
  apply (proj1 (executed_statements_are_accepted quiet_driver
                  App.DANGEROUS_SQL Sqlserv.DANGEROUS_SQL "db" "select 1;"
                  (Permutation_refl _) (Permutation_refl _))).
  right. left. reflexivity.
Defined.

End Pipeline.

Section Protocol.

(** X15.  Every tool calls the driver in the order of the protocol,
    whatever the driver answers: [connect] first, [cursor] after it, a
    statement only once a cursor was asked for, results only after a
    statement, the cursor closed before the connection, and nothing after
    the connection is closed. *)
Theorem tools_follow_protocol (quote_ident : string -> string) (d : driver)
  (order_pg order_ts : list string) (db_name table name query : string) :
  follows_protocol Idle (trace (fst (App.list_databases d))) = true /\
  follows_protocol Idle (trace (fst (App.list_tables d db_name))) = true /\
  follows_protocol Idle (trace (fst (App.table_schema d db_name table)))
    = true /\
  follows_protocol Idle
    (trace (fst (App.view_table quote_ident d db_name table))) = true /\
  follows_protocol Idle
    (trace (fst (App.execute_query d order_pg db_name query))) = true /\
  follows_protocol Idle (trace (fst (App.hello_postgres name))) = true /\
  follows_protocol Idle (trace (fst (Sqlserv.list_databases d))) = true /\
  follows_protocol Idle (trace (fst (Sqlserv.list_tables d))) = true /\
  follows_protocol Idle (trace (fst (Sqlserv.table_schema d table))) = true /\
  follows_protocol Idle (trace (fst (Sqlserv.view_table d table))) = true /\
  follows_protocol Idle
    (trace (fst (Sqlserv.execute_query d order_ts query))) = true /\
  follows_protocol Idle (trace (fst (Sqlserv.hello_sqlserver d name))) = true.
Proof.
  repeat apply conj; try reflexivity;
    unfold_tools; case_tools; reflexivity.
Qed.

(** X16.  [view_table] of the Postgres backend executes one statement,
    in which the table name stands only as the identifier psycopg2
    renders; it reads the column names before it looks at the rows, so
    that without rows it answers [No rows found] only when the column
    names could be read, and with an internal error otherwise. *)
Theorem view_table_pg_answer (quote_ident : string -> string) (d : driver)
  (db_name table : string) (rows : list row) :
  let sql := "SELECT * FROM " ++ quote_ident table ++ " LIMIT 10" in
  let r := App.view_table quote_ident d db_name table in
  let described :=
    drv_columns d [EConnect; ECursor; EExecute sql []; EFetchall] in
  (statements (trace (fst r)) = [] \/ statements (trace (fst r)) = [(sql, [])])
  /\
  (reaches_rows d sql [] rows ->
   (forall e, described = inl e ->
      answers d r (fun text => text = "Internal error: " ++ exn_str e)) /\
   (forall cols, described = inr cols ->
      (rows = [] -> answers d r (fun text => text = "No rows found")) /\
      (rows <> [] ->
       answers d r
         (fun text => text = Py.join nl (map (str_row d cols) rows))))).
Proof.
  cbv zeta. remember (quote_ident table) as ident eqn:Hi.
  split.
  - unfold_bodies. rewrite <- Hi. case_tools; rewrite leave_statements; auto.
  - intros (Hc & Hk & He & Hf). cbn in He, Hf.
    unfold_bodies. rewrite <- Hi, Hc. cbn. rewrite Hk. cbn. rewrite He. cbn.
    rewrite Hf. cbn. split.
    + intros e ->. cbn. now apply leave_answers.
    + intros cols ->. cbn. split.
      * intros ->. cbn. now apply leave_answers.
      * intros Hne. destruct rows; [now elim Hne|].
        cbn. now apply leave_answers.
Qed.

End Protocol.

Section ToolWitnesses.

Lemma listing_tools_answer_witness :
  reaches_rows names_driver App.LIST_DATABASES_SQL []
    [[VStr "postgres"]; [VStr "shop"]] /\
  App.list_databases names_driver
  = (mk_frame
       [EConnect; ECursor; EExecute App.LIST_DATABASES_SQL []; EFetchall;
        ECloseCursor; ECloseConn]
       true true,
     inr ("postgres" ++ nl ++ "shop")) /\
  listing_answer "No databases found" [[VStr "postgres"]; [VStr "shop"]]
    ("postgres" ++ nl ++ "shop").
Proof.
  assert (H : reaches_rows names_driver App.LIST_DATABASES_SQL []
                [[VStr "postgres"]; [VStr "shop"]])
    by (repeat split; reflexivity).
  split; [exact H|]. split; [reflexivity|].
  exact (proj1 (listing_tools_answer names_driver "db"
                  [[VStr "postgres"]; [VStr "shop"]]) H).
Defined.

Lemma table_schema_answer_witness :
  reaches_rows saleslt_driver App.TABLE_SCHEMA_SQL ["db"; "t"]
    [[VInt 1; VStr "a"]] /\
  App.table_schema saleslt_driver "db" "t"
  = (mk_frame
       [EConnect; ECursor; EExecute App.TABLE_SCHEMA_SQL ["db"; "t"];
        EFetchall; ECloseCursor; ECloseConn]
       true true,
     inr "1: a") /\
  schema_answer 2 ("No schema for " ++ "t") [[VInt 1; VStr "a"]]
    [EConnect; ECursor; EExecute App.TABLE_SCHEMA_SQL ["db"; "t"];
     EFetchall; ECloseCursor; ECloseConn]
    "1: a".
Proof.
  assert (H : reaches_rows saleslt_driver App.TABLE_SCHEMA_SQL ["db"; "t"]
                [[VInt 1; VStr "a"]])
    by (repeat split; reflexivity).
  split; [exact H|]. split; [reflexivity|].
  exact (proj1 (table_schema_answer saleslt_driver "db" "t"
                  [[VInt 1; VStr "a"]]) H).
Defined.

Lemma view_table_pg_answer_witness :
  reaches_rows quiet_driver ("SELECT * FROM " ++ "[t]" ++ " LIMIT 10") []
    [] /\
  answers quiet_driver
    (App.view_table (fun s => "[" ++ s ++ "]") quiet_driver "db" "t")
    (fun text => text = "No rows found") /\
  snd (App.view_table (fun s => "[" ++ s ++ "]") quiet_driver "db" "t")
  = inr "No rows found".
Proof.
  assert (H : reaches_rows quiet_driver
                ("SELECT * FROM " ++ "[t]" ++ " LIMIT 10") [] [])
    by (repeat split; reflexivity).
  split; [exact H|]. split; [|reflexivity].
  exact (proj1 (proj2 (proj2
           (view_table_pg_answer (fun s => "[" ++ s ++ "]") quiet_driver
              "db" "t" []) H) [] eq_refl) eq_refl).
Defined.

End ToolWitnesses.

(** ** Concrete runs *)

Section Runs.

Example upper_ex : Py.upper "Select 1; -- zZ{`" = "SELECT 1; -- ZZ{`".
Proof. reflexivity. Qed.

Example strip_ex : Py.strip "  a b  " = "a b".
Proof. reflexivity. Qed.

Example replace_first_ex :
  Py.replace_first "SELECT" "SELECT TOP 1000" "a SELECT b SELECT c"
  = "a SELECT TOP 1000 b SELECT c".
Proof. reflexivity. Qed.

Example str_of_nat_ex : Py.str_of_nat 1000 = "1000" /\ Py.str_of_nat 0 = "0".
Proof. split; reflexivity. Qed.

(** The over-broad substring policy: a column named [updated_at]. *)
Example updated_at_blocked :
  Sqlserv.validate_query Sqlserv.DANGEROUS_SQL "select updated_at from t"
  = inl (ValueError "Blocked keyword: UPDATE").
Proof. reflexivity. Qed.

(** An accepted query on a database without rows. *)
Example run_pg_no_rows :
  App.execute_query quiet_driver App.DANGEROUS_SQL "db" "select 1;;"
  = (mk_frame
       [EConnect; ECursor; EExecute "SET statement_timeout = 3000" [];
        EExecute "select 1 LIMIT 1000" []; EFetchall;
        ECloseCursor; ECloseConn]
       true true,
     inr "No results").
Proof. reflexivity. Qed.

(** A query with a common table expression: the first SELECT is the one
    that receives the row cap. *)
Example run_tsql_cte :
  Sqlserv.execute_query saleslt_driver Sqlserv.DANGEROUS_SQL
    "WITH a AS (SELECT 1) SELECT * from a"
  = (mk_frame
       [EConnect; ECursor; EExecute "SET LOCK_TIMEOUT 30000" [];
        EExecute "WITH a AS (SELECT TOP 1000 1) SELECT * from a" [];
        EFetchall; EDescription; ECloseCursor; ECloseConn]
       true true,
     inr "{'id': 1, 'name': 'a'}").
Proof. reflexivity. Qed.

(** The driver fails to encode the statement. *)
Example run_pg_encoding_failure :
  App.execute_query encoding_driver App.DANGEROUS_SQL "db" "SELECT 1"
  = (mk_frame
       [EConnect; ECursor; EExecute "SET statement_timeout = 3000" [];
        EExecute "SELECT 1 LIMIT 1000" []; ECloseCursor; ECloseConn]
       true true,
     inr "Blocked: codec can't encode character").
Proof. reflexivity. Qed.

(** [cur.close()] raises: the connection is not closed, and the
    exception leaves the tool. *)
Example run_list_tables_close_raises :
  Sqlserv.list_tables closing_driver
  = (mk_frame
       [EConnect; ECursor; EExecute Sqlserv.LIST_TABLES_SQL []; EFetchall;
        ECloseCursor]
       true true,
     inl (mk_exn false "cursor already closed")).
Proof. reflexivity. Qed.

(** [view_table] on a name the catalog knows, and on a dotted name. *)
Example view_table_qualified :
  executed (trace (fst (Sqlserv.view_table saleslt_driver "Customer")))
  = [Sqlserv.CATALOG_LOOKUP; "SELECT TOP 10 * FROM [SalesLT].[Customer]"].
Proof. reflexivity. Qed.

Example view_table_dotted :
  executed (trace (fst (Sqlserv.view_table quiet_driver "dbo.Cust.omer")))
  = ["SELECT TOP 10 * FROM [dbo].[Cust.omer]"].
Proof. reflexivity. Qed.

(** The catalog tools on a server with two databases. *)
Example run_list_databases :
  App.list_databases names_driver
  = (mk_frame
       [EConnect; ECursor; EExecute App.LIST_DATABASES_SQL []; EFetchall;
        ECloseCursor; ECloseConn]
       true true,
     inr ("postgres" ++ nl ++ "shop")).
Proof. reflexivity. Qed.

(** A listing whose rows do not start with a text. *)
Example run_list_tables_bad_row :
  Sqlserv.list_tables saleslt_driver
  = (mk_frame
       [EConnect; ECursor; EExecute Sqlserv.LIST_TABLES_SQL []; EFetchall;
        ELog "list_tables failed"; ECloseCursor; ECloseConn]
       true true,
     inr "Internal error: sequence item 0: expected str instance, int found").
Proof. reflexivity. Qed.

(** The line of a column with a length, not nullable, with a default. *)
Example column_info_ex :
  Sqlserv.column_info
    [VStr "Name"; VStr "nvarchar"; VStr "NO"; VStr "('x')"; VInt 50]
  = inr "Name: nvarchar(50) NOT NULL DEFAULT ('x')" /\
  Sqlserv.column_info [VStr "Id"; VStr "int"; VStr "YES"; VNone; VNone]
  = inr "Id: int".
Proof. split; reflexivity. Qed.

(** The greeting of the SQL Server backend. *)
Example run_hello_sqlserver :
  snd (Sqlserv.hello_sqlserver names_driver "Ann")
  = inr ("Hello from SQL Server Explorer, Ann! Connected to: " ++
         "Microsoft SQL Server 2022" ++ "...") /\
  snd (Sqlserv.hello_sqlserver quiet_driver "Ann")
  = inr "Hello Ann! Connection failed: 'NoneType' object is not subscriptable".
Proof. split; reflexivity. Qed.

(** Two columns of one name: the row shows the last value only. *)
Example run_duplicate_columns :
  str_row quiet_driver ["id"; "id"] [VInt 1; VInt 2] = "{'id': 2}".
Proof. reflexivity. Qed.

End Runs.
